(** * load-originate.py: the timer queue and the session orchestrator

    A shallow embedding of [FastScheduler] and [SessionManager] of
    [src/load-originate.py], and the properties of the session orchestration
    core stated over it.

    Conventions of the embedding.
    - Python integers are [Z].  A header value ([e.getHeader(...)]) is a
      [str] or [None]: [option string]; the dictionaries keyed by header
      values are [gmap (option string) _].
    - [time.time()] returns seconds as a float.  Timestamps are modelled as
      an exact count of microseconds in [Z]; one second is
      [ticks_per_second].  The successive values that [time.time()] returns
      are given by an oracle kept in the state ([time_time], [time_calls]).
    - The ESL connection is modelled by the chronological list of the calls
      made on it ([con]); the logger by the list of records it was given
      ([logger]).  Formatted strings are kept as constructors that hold the
      formatted values.
    - Methods that mutate [self] and may raise are computations of the
      monad [M]: a state transformer that returns normally or raises, and
      keeps the mutations made before the raise, as Python does. *)

From Stdlib Require Import ZArith Lia.
From stdpp Require Import base gmap strings list sorting.

Local Open Scope Z_scope.

(** ** Data *)

(** An ESL event: its headers by name.  [getHeader] returns [None] for a
    header that is absent. *)
Record ESLevent := { headers : gmap string string }.

Definition getHeader (e : ESLevent) (name : string) : option string :=
  headers e !! name.

(** [class Session]: lines 65-68. *)
Record Session := { uuid : option string; answered : bool }.

Definition new_Session (u : option string) : Session :=
  {| uuid := u; answered := false |}.

Definition set_answered (b : bool) (s : Session) : Session :=
  {| uuid := uuid s; answered := b |}.

(** The exceptions the modelled code can raise. *)
Inductive exn :=
| TypeError.  (* a call with the wrong number of arguments *)

(** The command strings given to [con.api], by their format string. *)
Inductive command :=
| fsctl_sps (n : Z)                                  (* 'fsctl sps %d' *)
| fsctl_max_sessions (n : Z)                         (* 'fsctl max_sessions %d' *)
| fsctl_loglevel_warning                             (* 'fsctl loglevel warning' *)
| bgapi_originate (originate_string : string)        (* 'bgapi originate %s' *)
| sched_hangup (delay : Z) (u : option string).      (* 'sched_hangup +%d %s NORMAL_CLEARING' *)

(** The calls made on the ESL connection. *)
Inductive con_call :=
| api (c : command)
| events (format names : string)
| recvEventTimed (ms : Z).

(** The records given to the logger, by level and format string. *)
Inductive log_record :=
| info_Originating_sessions
| info_Done_originating
| error_Failed_to_process_event (e : ESLevent) (ex : exn)
| error_Unknown_event (e : ESLevent)
| debug_Originated_session (u : option string)
| error_duplicated_originate_session (u : option string)
| debug_Answered_session (u : option string)
| debug_Hung_up_session (u : option string)
| error_Disconnected_from_server.

(** ** FastScheduler (lines 20-63)

    [sched.scheduler] keeps its entries in a heap ordered by the tuple
    [(time, priority, action, argument)]; [q[0]] is a least entry.  The heap
    is modelled by the list of its entries in increasing [(time, priority)]
    order, so that [q[0]] is the head.  The scheduler is generic in the
    state [St] that its actions act on: [queue]/[set_queue] read and write
    the scheduler's queue inside that state, [timefunc] reads the clock. *)

Definition ticks_per_second : Z := 1000000.

Section FastScheduler.
Context {Action Arg St : Type}.
Context `{EqDecision Action, EqDecision Arg}.

(** [Event = namedtuple('Event', 'time, priority, action, argument')] *)
Record Event := mkEvent {
  time : Z;
  priority : Z;
  action : Action;
  argument : list Arg
}.

#[global] Instance Event_eq_dec : EqDecision Event.
Proof. solve_decision. Defined.

Variable queue : St -> list Event.
Variable set_queue : list Event -> St -> St.
Variable timefunc : St -> Z * St.
(** the call of an entry: its action applied to its argument list *)
Variable call : Action -> list Arg -> St -> St.

(** The order of the heap on [(time, priority)]. *)
Definition event_ltb (a b : Event) : bool :=
  (time a <? time b) || ((time a =? time b) && (priority a <? priority b)).

(** [heapq.heappush]: the entry goes before the first entry that is
    strictly greater. *)
Fixpoint heappush (ev : Event) (q : list Event) : list Event :=
  match q with
  | [] => [ev]
  | x :: q' => if event_ltb ev x then ev :: q else x :: heappush ev q'
  end.

(** [list.remove]: the first entry equal to [ev] goes. *)
Fixpoint list_remove (ev : Event) (q : list Event) : list Event :=
  match q with
  | [] => []
  | x :: q' => if decide (x = ev) then q' else x :: list_remove ev q'
  end.

(** [scheduler.enterabs(time, priority, action, argument)] *)
Definition enterabs (t p : Z) (a : Action) (arg : list Arg) (st : St) : St :=
  set_queue (heappush (mkEvent t p a arg) (queue st)) st.

(** [scheduler.enter(delay, priority, action, argument)]: the due time is
    a fresh reading of the clock plus the delay (in seconds). *)
Definition enter (delay p : Z) (a : Action) (arg : list Arg) (st : St) : St :=
  let '(t, st1) := timefunc st in
  enterabs (t + delay * ticks_per_second) p a arg st1.

(** [scheduler.cancel(event)]; it is only called on [q[0]] here, which is
    in the queue. *)
Definition cancel (ev : Event) (st : St) : St :=
  set_queue (list_remove ev (queue st)) st.

(** Lines 33-45.  [int(time - now)] truncates the seconds. *)
Definition next_event_time_delta (st : St) : Z * St :=
  match queue st with
  | [] => (-1, st)
  | ev :: _ =>
      let '(now, st1) := timefunc st in
      if now <? time ev
      then (Z.quot (time ev - now) ticks_per_second, st1)
      else (0, st1)
  end.

(** One invocation made by [fast_run], kept as a ghost record: the entry
    that was run, the queue before it was cancelled and the queue that
    its action found. *)
Record invocation := mkInvocation {
  run_event : Event;
  queue_before : list Event;
  queue_at_call : list Event
}.

(** The [while q:] loop of lines 57-63, for the time sample [now].  The
    loop need not end (an action may keep scheduling entries that are
    due), so it runs on fuel: [None] is a loop that has not ended within
    [fuel] iterations.  The result is the state at the end with the
    invocations made, in order. *)
Fixpoint fast_run_loop (fuel : nat) (now : Z) (st : St)
    : option (list invocation * St) :=
  match fuel with
  | O => None
  | S fuel' =>
      match queue st with
      | [] => Some ([], st)
      | ev :: _ =>
          if now <? time ev then Some ([], st)
          else if now >=? time ev then
            let st1 := cancel ev st in
            let st2 := call (action ev) (argument ev) st1 in
            match fast_run_loop fuel' now st2 with
            | Some (tr, st') =>
                Some (mkInvocation ev (queue st) (queue st1) :: tr, st')
            | None => None
            end
          else fast_run_loop fuel' now st
      end
  end.

(** Lines 47-63: the time is read once, on entry. *)
Definition fast_run_trace (fuel : nat) (st : St)
    : option (list invocation * St) :=
  let '(now, st1) := timefunc st in
  fast_run_loop fuel now st1.

Definition fast_run (fuel : nat) (st : St) : option St :=
  snd <$> fast_run_trace fuel st.

End FastScheduler.

Arguments Event : clear implicits.
Arguments invocation : clear implicits.

(** ** SessionManager (lines 70-193) *)

(** The bound methods that are given to the scheduler as actions. *)
Inductive method :=
| originate_sessions_method.

#[global] Instance method_eq_dec : EqDecision method.
Proof. solve_decision. Defined.

(** The only argument list that is ever scheduled is [[]]. *)
Abbreviation timer_event := (Event method Empty_set).

Record SessionManager := mkSessionManager {
  rate : Z;
  limit : Z;
  max_sessions : Z;
  duration : Z;
  originate_string : string;
  sessions : gmap (option string) Session;
  hangup_causes : gmap (option string) Z;
  total_originated_sessions : Z;
  total_answered_sessions : Z;
  total_failed_sessions : Z;
  terminate : bool;
  (** [self.sched.queue] *)
  sched : list timer_event;
  (** the calls made on [self.con], oldest first *)
  con : list con_call;
  (** the records given to [self.logger], oldest first *)
  logger : list log_record;
  (** [time.time]: the value of its n-th call, and the calls made so far *)
  time_time : nat -> Z;
  time_calls : nat
}.

Definition set_sessions (v : gmap (option string) Session) (sm : SessionManager) :=
  mkSessionManager (rate sm) (limit sm) (max_sessions sm) (duration sm)
    (originate_string sm) v (hangup_causes sm)
    (total_originated_sessions sm) (total_answered_sessions sm)
    (total_failed_sessions sm) (terminate sm) (sched sm) (con sm) (logger sm)
    (time_time sm) (time_calls sm).

Definition set_hangup_causes (v : gmap (option string) Z) (sm : SessionManager) :=
  mkSessionManager (rate sm) (limit sm) (max_sessions sm) (duration sm)
    (originate_string sm) (sessions sm) v
    (total_originated_sessions sm) (total_answered_sessions sm)
    (total_failed_sessions sm) (terminate sm) (sched sm) (con sm) (logger sm)
    (time_time sm) (time_calls sm).

Definition set_total_originated_sessions (v : Z) (sm : SessionManager) :=
  mkSessionManager (rate sm) (limit sm) (max_sessions sm) (duration sm)
    (originate_string sm) (sessions sm) (hangup_causes sm)
    v (total_answered_sessions sm)
    (total_failed_sessions sm) (terminate sm) (sched sm) (con sm) (logger sm)
    (time_time sm) (time_calls sm).

Definition set_total_answered_sessions (v : Z) (sm : SessionManager) :=
  mkSessionManager (rate sm) (limit sm) (max_sessions sm) (duration sm)
    (originate_string sm) (sessions sm) (hangup_causes sm)
    (total_originated_sessions sm) v
    (total_failed_sessions sm) (terminate sm) (sched sm) (con sm) (logger sm)
    (time_time sm) (time_calls sm).

Definition set_total_failed_sessions (v : Z) (sm : SessionManager) :=
  mkSessionManager (rate sm) (limit sm) (max_sessions sm) (duration sm)
    (originate_string sm) (sessions sm) (hangup_causes sm)
    (total_originated_sessions sm) (total_answered_sessions sm)
    v (terminate sm) (sched sm) (con sm) (logger sm)
    (time_time sm) (time_calls sm).

Definition set_terminate (v : bool) (sm : SessionManager) :=
  mkSessionManager (rate sm) (limit sm) (max_sessions sm) (duration sm)
    (originate_string sm) (sessions sm) (hangup_causes sm)
    (total_originated_sessions sm) (total_answered_sessions sm)
    (total_failed_sessions sm) v (sched sm) (con sm) (logger sm)
    (time_time sm) (time_calls sm).

Definition set_sched (v : list timer_event) (sm : SessionManager) :=
  mkSessionManager (rate sm) (limit sm) (max_sessions sm) (duration sm)
    (originate_string sm) (sessions sm) (hangup_causes sm)
    (total_originated_sessions sm) (total_answered_sessions sm)
    (total_failed_sessions sm) (terminate sm) v (con sm) (logger sm)
    (time_time sm) (time_calls sm).

Definition set_con (v : list con_call) (sm : SessionManager) :=
  mkSessionManager (rate sm) (limit sm) (max_sessions sm) (duration sm)
    (originate_string sm) (sessions sm) (hangup_causes sm)
    (total_originated_sessions sm) (total_answered_sessions sm)
    (total_failed_sessions sm) (terminate sm) (sched sm) v (logger sm)
    (time_time sm) (time_calls sm).

Definition set_logger (v : list log_record) (sm : SessionManager) :=
  mkSessionManager (rate sm) (limit sm) (max_sessions sm) (duration sm)
    (originate_string sm) (sessions sm) (hangup_causes sm)
    (total_originated_sessions sm) (total_answered_sessions sm)
    (total_failed_sessions sm) (terminate sm) (sched sm) (con sm) v
    (time_time sm) (time_calls sm).

Definition set_time_calls (v : nat) (sm : SessionManager) :=
  mkSessionManager (rate sm) (limit sm) (max_sessions sm) (duration sm)
    (originate_string sm) (sessions sm) (hangup_causes sm)
    (total_originated_sessions sm) (total_answered_sessions sm)
    (total_failed_sessions sm) (terminate sm) (sched sm) (con sm) (logger sm)
    (time_time sm) v.

(** *** The monad of methods *)

Inductive result (A : Type) :=
| Return (a : A)
| Raise (ex : exn).
Arguments Return {A} a.
Arguments Raise {A} ex.

Definition M (A : Type) : Type := SessionManager -> result A * SessionManager.

#[global] Instance M_ret : MRet M := fun A a sm => (Return a, sm).

#[global] Instance M_bind : MBind M := fun A B f m sm =>
  match m sm with
  | (Return a, sm1) => f a sm1
  | (Raise ex, sm1) => (Raise ex, sm1)
  end.

Definition raise {A} (ex : exn) : M A := fun sm => (Raise ex, sm).
Definition gets {A} (f : SessionManager -> A) : M A := fun sm => (Return (f sm), sm).
Definition modify (f : SessionManager -> SessionManager) : M unit :=
  fun sm => (Return tt, f sm).

(** [try: body except Exception, ex: handler(ex)] *)
Definition try_except (body : M unit) (handler : exn -> M unit) : M unit :=
  fun sm =>
    match body sm with
    | (Return a, sm1) => (Return a, sm1)
    | (Raise ex, sm1) => handler ex sm1
    end.

(** The state that a method leaves. *)
Definition exec {A} (m : M A) (sm : SessionManager) : SessionManager := snd (m sm).

Definition logger_log (r : log_record) : M unit :=
  modify (fun sm => set_logger (logger sm ++ [r]) sm).

Definition con_api (c : command) : M unit :=
  modify (fun sm => set_con (con sm ++ [api c]) sm).

Definition con_recvEventTimed (ms : Z) : M unit :=
  modify (fun sm => set_con (con sm ++ [recvEventTimed ms]) sm).

(** [time.time()] *)
Definition sm_timefunc (sm : SessionManager) : Z * SessionManager :=
  (time_time sm (time_calls sm), set_time_calls (S (time_calls sm)) sm).

(** [self.sched.enter(delay, priority, action, argument)] *)
Definition sched_enter (delay p : Z) (a : method) (arg : list Empty_set) : M unit :=
  modify (enter sched set_sched sm_timefunc delay p a arg).

(** *** originate_sessions (lines 113-124) *)

(** The [for i in range(0, self.rate)] loop with [n] iterations left. *)
Fixpoint originate_loop (n : nat) (sesscnt : Z) : M unit :=
  match n with
  | O => mret tt
  | S n' =>
      lim ← gets limit;
      if bool_decide (sesscnt >= lim) then mret tt
      else
        s ← gets originate_string;
        con_api (bgapi_originate s);;
        originate_loop n' (sesscnt + 1)
  end.

Definition originate_sessions : M unit :=
  logger_log info_Originating_sessions;;
  total ← gets total_originated_sessions;
  maxs ← gets max_sessions;
  if bool_decide (total >= maxs) then
    logger_log info_Done_originating
  else
    sesscnt ← gets (fun sm => Z.of_nat (size (sessions sm)));
    r ← gets rate;
    originate_loop (Z.to_nat r) sesscnt;;
    sched_enter 1 1 originate_sessions_method [].

(** *** The event handlers (lines 138-179) *)

Definition handle_originate (e : ESLevent) : M unit :=
  let uuid := getHeader e "Channel-Call-UUID" in
  let dir := getHeader e "Call-Direction" in
  if bool_decide (dir ≠ Some "outbound") then mret tt
  else
    logger_log (debug_Originated_session uuid);;
    ss ← gets sessions;
    if bool_decide (is_Some (ss !! uuid)) then
      logger_log (error_duplicated_originate_session uuid)
    else
      modify (fun sm => set_sessions (<[uuid := new_Session uuid]> (sessions sm)) sm);;
      modify (fun sm => set_total_originated_sessions (total_originated_sessions sm + 1) sm);;
      d ← gets duration;
      con_api (sched_hangup d uuid).

Definition handle_answer (e : ESLevent) : M unit :=
  let uuid := getHeader e "Channel-Call-UUID" in
  ss ← gets sessions;
  if bool_decide (¬ is_Some (ss !! uuid)) then mret tt
  else
    logger_log (debug_Answered_session uuid);;
    modify (fun sm => set_total_answered_sessions (total_answered_sessions sm + 1) sm);;
    modify (fun sm => set_sessions (alter (set_answered true) uuid (sessions sm)) sm).

Definition handle_hangup (e : ESLevent) : M unit :=
  let uuid := getHeader e "Channel-Call-UUID" in
  ss ← gets sessions;
  match ss !! uuid with
  | None => mret tt
  | Some s =>
      let cause := getHeader e "Hangup-Cause" in
      modify (fun sm =>
        match hangup_causes sm !! cause with
        | None => set_hangup_causes (<[cause := 1]> (hangup_causes sm)) sm
        | Some n => set_hangup_causes (<[cause := n + 1]> (hangup_causes sm)) sm
        end);;
      (if negb (answered s) then
         modify (fun sm => set_total_failed_sessions (total_failed_sessions sm + 1) sm)
       else mret tt);;
      modify (fun sm => set_sessions (delete uuid (sessions sm)) sm);;
      logger_log (debug_Hung_up_session uuid);;
      total ← gets total_originated_sessions;
      maxs ← gets max_sessions;
      n ← gets (fun sm => size (sessions sm));
      if bool_decide (total >= maxs) && bool_decide (n = 0%nat) then
        modify (set_terminate true)
      else mret tt
  end.

(** [def handle_disconnect(self)]: no event parameter. *)
Definition handle_disconnect : M unit :=
  logger_log error_Disconnected_from_server;;
  modify (set_terminate true).

(** *** Event dispatch (lines 89-94 and 126-136) *)

(** A bound method, by the number of parameters it declares after [self]. *)
Inductive bound_method :=
| method1 (f : ESLevent -> M unit)      (* def f(self, e) *)
| method0 (f : M unit).                 (* def f(self) *)

(** [m(e)]: a call with one argument.  A method that declares none raises
    [TypeError] before its body runs. *)
Definition call1 (m : bound_method) (e : ESLevent) : M unit :=
  match m with
  | method1 f => f e
  | method0 _ => raise TypeError
  end.

Definition ev_handlers : gmap (option string) bound_method :=
  <[Some "CHANNEL_ORIGINATE" := method1 handle_originate]>
  (<[Some "CHANNEL_ANSWER" := method1 handle_answer]>
  (<[Some "CHANNEL_HANGUP" := method1 handle_hangup]>
  (<[Some "SERVER_DISCONNECTED" := method0 handle_disconnect]> ∅))).

Definition process_event (e : ESLevent) : M unit :=
  let evname := getHeader e "Event-Name" in
  match ev_handlers !! evname with
  | Some h =>
      try_except (call1 h e)
        (fun ex => logger_log (error_Failed_to_process_event e ex))
  | None => logger_log (error_Unknown_event e)
  end.

(** *** The scheduler of the session manager (line 96) *)

(** The call of a scheduled entry.  The argument list is always empty. *)
Definition call_method (a : method) (arg : list Empty_set) (sm : SessionManager)
    : SessionManager :=
  match a with
  | originate_sessions_method => exec originate_sessions sm
  end.

Definition sched_fast_run_trace (fuel : nat) (sm : SessionManager)
    : option (list (invocation method Empty_set) * SessionManager) :=
  fast_run_trace sched set_sched sm_timefunc call_method fuel sm.

Definition sched_fast_run (fuel : nat) (sm : SessionManager) : option SessionManager :=
  fast_run sched set_sched sm_timefunc call_method fuel sm.

Definition sched_next_event_time_delta (sm : SessionManager) : Z * SessionManager :=
  next_event_time_delta sched sm_timefunc sm.

(** *** __init__ (lines 71-111), for a connection that succeeds *)

Definition new_SessionManager (rate limit max_sessions duration : Z)
    (originate_string : string) (clock : nat -> Z) : SessionManager :=
  {| rate := rate; limit := limit; max_sessions := max_sessions;
     duration := duration; originate_string := originate_string;
     sessions := ∅; hangup_causes := ∅;
     total_originated_sessions := 0;
     total_answered_sessions := 0;
     total_failed_sessions := 0;
     terminate := false;
     sched := [];
     con := [ api (fsctl_sps (rate * 10));
              api (fsctl_max_sessions (limit * 10));
              api fsctl_loglevel_warning;
              events "plain" "CHANNEL_ORIGINATE CHANNEL_ANSWER CHANNEL_HANGUP" ];
     logger := [];
     time_time := clock; time_calls := 0 |}.

(** *** run (lines 181-193) *)

(** The timeout of line 188, from the value of [next_event_time_delta]. *)
Definition recv_timeout (sched_sleep : Z) : Z :=
  let sched_sleep := if sched_sleep =? 0 then 1 else sched_sleep in
  sched_sleep * 1000.

(** How far a run has come when its input is used up. *)
Inductive outcome :=
| Returned (sm : SessionManager)   (* [break]: [run] has returned *)
| Waiting (sm : SessionManager)    (* blocked in [recvEventTimed] *)
| Spinning.                        (* [fast_run] has not ended within its fuel *)

(** The [while True:] loop.  [inputs] are the successive results of
    [recvEventTimed]: an event, or [None] on a timeout.  [fuel] bounds each
    call of [fast_run]. *)
Fixpoint run_loop (fuel : nat) (inputs : list (option ESLevent))
    (sm : SessionManager) : outcome :=
  match sched_fast_run fuel sm with
  | None => Spinning
  | Some sm1 =>
      let '(sched_sleep, sm2) := sched_next_event_time_delta sm1 in
      let sm3 := exec (con_recvEventTimed (recv_timeout sched_sleep)) sm2 in
      match inputs with
      | [] => Waiting sm3
      | None :: inputs' => run_loop fuel inputs' sm3
      | Some e :: inputs' =>
          let sm4 := exec (process_event e) sm3 in
          if terminate sm4 then Returned sm4 else run_loop fuel inputs' sm4
      end
  end.

Definition run (fuel : nat) (inputs : list (option ESLevent))
    (sm : SessionManager) : outcome :=
  run_loop fuel inputs (exec originate_sessions sm).

(** ** Concrete events and clocks used in the examples *)

Definition mk_event (l : list (string * string)) : ESLevent :=
  {| headers := list_to_map l |}.

Definition ev_originate (u : string) : ESLevent :=
  mk_event [("Event-Name", "CHANNEL_ORIGINATE"); ("Channel-Call-UUID", u);
            ("Call-Direction", "outbound")].

Definition ev_answer (u : string) : ESLevent :=
  mk_event [("Event-Name", "CHANNEL_ANSWER"); ("Channel-Call-UUID", u)].

Definition ev_hangup (u cause : string) : ESLevent :=
  mk_event [("Event-Name", "CHANNEL_HANGUP"); ("Channel-Call-UUID", u);
            ("Hangup-Cause", cause)].

Definition ev_disconnected : ESLevent :=
  mk_event [("Event-Name", "SERVER_DISCONNECTED")].

(** A clock that advances by 0.6 s between two readings. *)
Definition clock_600ms (n : nat) : Z := Z.of_nat n * 600000.

(** The steps that change the state of the orchestrator: a tick of the
    rate-control action, or the dispatch of a received event. *)
Inductive step :=
| tick
| recv (e : ESLevent).

Definition exec_step (s : step) (sm : SessionManager) : SessionManager :=
  match s with
  | tick => exec originate_sessions sm
  | recv e => exec (process_event e) sm
  end.

Definition exec_steps (l : list step) (sm : SessionManager) : SessionManager :=
  fold_left (fun sm s => exec_step s sm) l sm.

(** ** Definitions used in the statements *)

(** The state that [handle_hangup] leaves for an id that is in the table,
    before the termination test of lines 173-175. *)
Definition hangup_removed (e : ESLevent) (s : Session) (sm : SessionManager)
    : SessionManager :=
  let u := getHeader e "Channel-Call-UUID" in
  let cause := getHeader e "Hangup-Cause" in
  set_logger (logger sm ++ [debug_Hung_up_session u])
    (set_sessions (delete u (sessions sm))
       (set_total_failed_sessions
          (if answered s then total_failed_sessions sm
           else total_failed_sessions sm + 1)
          (set_hangup_causes
             (<[cause := default 0 (hangup_causes sm !! cause) + 1]> (hangup_causes sm))
             sm))).

(** The origination commands among the calls made on the connection. *)
Definition is_originate (c : con_call) : bool :=
  match c with
  | api (bgapi_originate _) => true
  | _ => false
  end.

Definition count_originate (l : list con_call) : Z :=
  Z.of_nat (length (List.filter is_originate l)).

(** The number of origination commands that one tick issues. *)
Definition tick_commands (sm : SessionManager) : Z :=
  count_originate (con (exec originate_sessions sm)) - count_originate (con sm).

Definition live (sm : SessionManager) : Z := Z.of_nat (size (sessions sm)).


(** A manager as [__init__] leaves it, with a 60 s duration and the clock
    [clock_600ms]. *)
Definition example_manager (rate limit max_sessions : Z) : SessionManager :=
  new_SessionManager rate limit max_sessions 60 "user/1000" clock_600ms.

(** The timeout, in milliseconds, that one iteration of the run loop gives
    to [recvEventTimed] when the drain has left the state [sm]. *)
Definition wait_timeout (sm : SessionManager) : Z :=
  recv_timeout (fst (sched_next_event_time_delta sm)).

(** A step that removes a session from the table: the dispatch of a hangup
    event for an id that is in the table. *)
Definition removes (s : step) (sm : SessionManager) : bool :=
  match s with
  | tick => false
  | recv e =>
      bool_decide (getHeader e "Event-Name" = Some "CHANNEL_HANGUP"
                   ∧ is_Some (sessions sm !! getHeader e "Channel-Call-UUID"))
  end.

(** The number of sessions that the steps remove, from the state [sm] on. *)
Fixpoint removed (steps : list step) (sm : SessionManager) : Z :=
  match steps with
  | [] => 0
  | s :: steps' =>
      (if removes s sm then 1 else 0) + removed steps' (exec_step s sm)
  end.

(** The dispatch of an outbound origination-confirmed event for the id [u]. *)
Definition is_outbound_originate (u : option string) (s : step) : Prop :=
  match s with
  | tick => False
  | recv e =>
      getHeader e "Event-Name" = Some "CHANNEL_ORIGINATE"
      ∧ getHeader e "Call-Direction" = Some "outbound"
      ∧ getHeader e "Channel-Call-UUID" = u
  end.

(** The dispatch of a hangup event for the id [u]. *)
Definition is_hangup_of (u : option string) (s : step) : Prop :=
  match s with
  | tick => False
  | recv e =>
      getHeader e "Event-Name" = Some "CHANNEL_HANGUP"
      ∧ getHeader e "Channel-Call-UUID" = u
  end.

(** The invariant of the queue as the heap is modelled: the entries are in
    the order of their due times, so the head is an earliest one. *)
Definition by_due_time {Action Arg : Type} (q : list (Event Action Arg)) : Prop :=
  StronglySorted (fun a b => time a <= time b) q.

(** The clock does not run backwards, from the next reading on. *)
Definition clock_monotone (sm : SessionManager) : Prop :=
  ∀ i j : nat, (time_calls sm <= i)%nat → (i <= j)%nat →
    time_time sm i <= time_time sm j.

(** An entry is due at the time sample [now]. *)
Definition due {Action Arg : Type} (now : Z) (ev : Event Action Arg) : Prop :=
  time ev <= now.

#[global] Instance due_dec {Action Arg : Type} (now : Z) (ev : Event Action Arg) :
  Decision (due now ev).
Proof. unfold due. apply _. Defined.

(** The states that a drain entered in the state [sm0] goes through: the
    clock is the same, and has been read at least as often. *)
Definition drain_inv (sm0 sm : SessionManager) : Prop :=
  time_time sm = time_time sm0 ∧ (time_calls sm0 <= time_calls sm)%nat.

(** A manager whose timer queue holds three entries, due at 1 s, 2 s and
    9 s, when the next reading of the clock is 2.4 s. *)
Definition drain_example : SessionManager :=
  set_sched [mkEvent 1000000 1 originate_sessions_method [];
             mkEvent 2000000 1 originate_sessions_method [];
             mkEvent 9000000 1 originate_sessions_method []]
    (set_time_calls 4 (example_manager 1 1 5)).

(** ** Definitions used in the further properties *)

(** The sum of the hangup-cause counters. *)
Definition hangup_total (sm : SessionManager) : Z :=
  map_fold (fun _ n acc => n + acc) 0 (hangup_causes sm).

(** The forced-hangup commands among the calls made on the connection. *)
Definition is_sched_hangup (c : con_call) : bool :=
  match c with
  | api (sched_hangup _ _) => true
  | _ => false
  end.

Definition count_sched_hangup (l : list con_call) : Z :=
  Z.of_nat (length (List.filter is_sched_hangup l)).

(** [sm'] is a later state of [sm]: the configuration and the clock are the
    same, the counters have not gone down, the terminate flag has not been
    reset, and the connection and the logger have only been added to. *)
Definition later_state (sm sm' : SessionManager) : Prop :=
  rate sm' = rate sm ∧ limit sm' = limit sm
  ∧ max_sessions sm' = max_sessions sm ∧ duration sm' = duration sm
  ∧ originate_string sm' = originate_string sm
  ∧ time_time sm' = time_time sm
  ∧ (time_calls sm <= time_calls sm')%nat
  ∧ total_originated_sessions sm <= total_originated_sessions sm'
  ∧ total_answered_sessions sm <= total_answered_sessions sm'
  ∧ total_failed_sessions sm <= total_failed_sessions sm'
  ∧ (∀ c, default 0 (hangup_causes sm !! c) <= default 0 (hangup_causes sm' !! c))
  ∧ (terminate sm = true → terminate sm' = true)
  ∧ con sm `prefix_of` con sm'
  ∧ logger sm `prefix_of` logger sm'.

(** The part of the state that the event handlers own. *)
Definition same_session_state (sm sm' : SessionManager) : Prop :=
  sessions sm' = sessions sm
  ∧ hangup_causes sm' = hangup_causes sm
  ∧ total_originated_sessions sm' = total_originated_sessions sm
  ∧ total_answered_sessions sm' = total_answered_sessions sm
  ∧ total_failed_sessions sm' = total_failed_sessions sm
  ∧ terminate sm' = terminate sm.

(** The order of the heap on [(time, priority)]: no entry is strictly less
    than an entry before it. *)
Definition by_time_priority {Action Arg : Type} (q : list (Event Action Arg)) : Prop :=
  StronglySorted (fun a b => event_ltb b a = false) q.

(** A clock that steps back: 200 s at the first reading, 50 s at the
    second, 300 s from then on. *)
Definition clock_stepping_back (n : nat) : Z :=
  match n with
  | 0%nat => 200000000
  | 1%nat => 50000000
  | _ => 300000000
  end.

(** A manager under that clock, with the tick due at 100 s in its queue. *)
Definition stepping_back_example : SessionManager :=
  set_sched [mkEvent 100000000 1 originate_sessions_method []]
    (new_SessionManager 1 1 5 60 "user/1000" clock_stepping_back).

(** The state that the invocations of a trace leave, from the state [st]
    on: each entry is taken out of the queue, then [originate_sessions], the
    action of every entry, is run. *)
Definition run_invocations (tr : list (invocation method Empty_set))
    (st : SessionManager) : SessionManager :=
  fold_left
    (fun st i => exec originate_sessions (cancel sched set_sched (run_event i) st))
    tr st.

(** The log records of the ticks. *)
Definition is_Originating_sessions (r : log_record) : bool :=
  match r with
  | info_Originating_sessions => true
  | _ => false
  end.

Definition count_ticks (l : list log_record) : nat :=
  length (List.filter is_Originating_sessions l).
(** ** Dispatch *)

Lemma ev_handlers_lookup (n : option string) :
  ev_handlers !! n =
    if decide (Some "CHANNEL_ORIGINATE" = n) then Some (method1 handle_originate)
    else if decide (Some "CHANNEL_ANSWER" = n) then Some (method1 handle_answer)
    else if decide (Some "CHANNEL_HANGUP" = n) then Some (method1 handle_hangup)
    else if decide (Some "SERVER_DISCONNECTED" = n) then Some (method0 handle_disconnect)
    else None.
Proof.
  unfold ev_handlers.
  rewrite !lookup_insert, lookup_empty.
  repeat case_decide; reflexivity.
Qed.

(** ** The handlers, case by case *)

Ltac unfold_M :=
  unfold exec, logger_log, con_api, con_recvEventTimed, sched_enter,
    try_except, call1, raise, gets, modify, mbind, M_bind, mret, M_ret;
  cbn [fst snd].

Lemma handle_originate_not_outbound e sm :
  getHeader e "Call-Direction" ≠ Some "outbound" →
  handle_originate e sm = (Return tt, sm).
Proof.
  intros Hdir. unfold handle_originate.
  rewrite bool_decide_eq_true_2 by exact Hdir. reflexivity.
Qed.

Lemma handle_originate_duplicate e sm :
  getHeader e "Call-Direction" = Some "outbound" →
  is_Some (sessions sm !! getHeader e "Channel-Call-UUID") →
  handle_originate e sm =
    (Return tt,
     set_logger (logger sm ++
       [debug_Originated_session (getHeader e "Channel-Call-UUID");
        error_duplicated_originate_session (getHeader e "Channel-Call-UUID")]) sm).
Proof.
  intros Hdir Hin. unfold handle_originate.
  rewrite bool_decide_eq_false_2 by (intros Hne; exact (Hne Hdir)).
  unfold_M. cbn [sessions set_logger].
  rewrite bool_decide_eq_true_2 by exact Hin.
  unfold set_logger; cbn. rewrite <- app_assoc. reflexivity.
Qed.

Lemma handle_originate_new e sm :
  getHeader e "Call-Direction" = Some "outbound" →
  sessions sm !! getHeader e "Channel-Call-UUID" = None →
  handle_originate e sm =
    (Return tt,
     let u := getHeader e "Channel-Call-UUID" in
     set_con (con sm ++ [api (sched_hangup (duration sm) u)])
       (set_total_originated_sessions (total_originated_sessions sm + 1)
          (set_sessions (<[u := new_Session u]> (sessions sm))
             (set_logger (logger sm ++ [debug_Originated_session u]) sm)))).
Proof.
  intros Hdir Hin. unfold handle_originate.
  rewrite bool_decide_eq_false_2 by (intros Hne; exact (Hne Hdir)).
  unfold_M. cbn [sessions set_logger].
  rewrite bool_decide_eq_false_2 by (rewrite Hin; apply is_Some_None).
  reflexivity.
Qed.

Lemma handle_answer_unknown e sm :
  sessions sm !! getHeader e "Channel-Call-UUID" = None →
  handle_answer e sm = (Return tt, sm).
Proof.
  intros Hin. unfold handle_answer. unfold_M.
  rewrite bool_decide_eq_true_2 by (rewrite Hin; apply is_Some_None).
  reflexivity.
Qed.

Lemma handle_answer_known e sm s :
  sessions sm !! getHeader e "Channel-Call-UUID" = Some s →
  handle_answer e sm =
    (Return tt,
     let u := getHeader e "Channel-Call-UUID" in
     set_sessions (<[u := set_answered true s]> (sessions sm))
       (set_total_answered_sessions (total_answered_sessions sm + 1)
          (set_logger (logger sm ++ [debug_Answered_session u]) sm))).
Proof.
  intros Hin. unfold handle_answer. unfold_M.
  rewrite bool_decide_eq_false_2 by (rewrite Hin; intros Hn; apply Hn; eauto).
  cbn zeta. f_equal. unfold set_sessions; cbn. f_equal.
  apply map_eq; intros k. rewrite lookup_alter, lookup_insert.
  repeat case_decide; subst; try congruence. rewrite Hin. reflexivity.
Qed.

Lemma handle_hangup_unknown e sm :
  sessions sm !! getHeader e "Channel-Call-UUID" = None →
  handle_hangup e sm = (Return tt, sm).
Proof.
  intros Hin. unfold handle_hangup. unfold_M. rewrite Hin. reflexivity.
Qed.

Lemma handle_hangup_known e sm s :
  sessions sm !! getHeader e "Channel-Call-UUID" = Some s →
  handle_hangup e sm =
    (Return tt,
     let sm1 := hangup_removed e s sm in
     if bool_decide (total_originated_sessions sm >= max_sessions sm)
        && bool_decide (size (sessions sm1) = 0%nat)
     then set_terminate true sm1 else sm1).
Proof.
  intros Hin. unfold handle_hangup. unfold_M. rewrite Hin.
  unfold hangup_removed.
  destruct (hangup_causes sm !! getHeader e "Hangup-Cause") as [n|] eqn:Hc;
    destruct (answered s) eqn:Ha; cbn;
    repeat case_bool_decide; cbn; try reflexivity; try contradiction.
Qed.

(** ** Event dispatch, case by case *)

Ltac lookup_handler H :=
  unfold process_event; rewrite ev_handlers_lookup, H;
  repeat (case_decide; try discriminate); try done.

Lemma process_event_originate e sm :
  getHeader e "Event-Name" = Some "CHANNEL_ORIGINATE" →
  process_event e sm = handle_originate e sm.
Proof.
  intros Hn. lookup_handler Hn.
  unfold_M. destruct (handle_originate e sm) as [[[]|ex] sm1] eqn:Hh;
    [reflexivity|].
  exfalso. revert Hh. unfold handle_originate. unfold_M.
  repeat (case_bool_decide; cbn); discriminate.
Qed.

Lemma process_event_answer e sm :
  getHeader e "Event-Name" = Some "CHANNEL_ANSWER" →
  process_event e sm = handle_answer e sm.
Proof.
  intros Hn. lookup_handler Hn.
  unfold_M. destruct (handle_answer e sm) as [[[]|ex] sm1] eqn:Hh;
    [reflexivity|].
  exfalso. revert Hh. unfold handle_answer. unfold_M.
  repeat (case_bool_decide; cbn); discriminate.
Qed.

Lemma process_event_hangup e sm :
  getHeader e "Event-Name" = Some "CHANNEL_HANGUP" →
  process_event e sm = handle_hangup e sm.
Proof.
  intros Hn. lookup_handler Hn.
  unfold_M.
  destruct (sessions sm !! getHeader e "Channel-Call-UUID") as [s|] eqn:Hin.
  - rewrite (handle_hangup_known e sm s Hin). reflexivity.
  - rewrite (handle_hangup_unknown e sm Hin). reflexivity.
Qed.

(** [handle_disconnect] is called with the event, and declares no
    parameter for it: the call raises, and the body is not run. *)
Lemma process_event_disconnected e sm :
  getHeader e "Event-Name" = Some "SERVER_DISCONNECTED" →
  process_event e sm =
    (Return tt,
     set_logger (logger sm ++ [error_Failed_to_process_event e TypeError]) sm).
Proof.
  intros Hn. lookup_handler Hn.
Qed.

Lemma process_event_unknown e sm :
  ev_handlers !! getHeader e "Event-Name" = None →
  process_event e sm =
    (Return tt, set_logger (logger sm ++ [error_Unknown_event e]) sm).
Proof.
  intros Hn. unfold process_event. rewrite Hn. reflexivity.
Qed.

(** The five cases of the dispatch. *)
Lemma process_event_cases e sm :
  (getHeader e "Event-Name" = Some "CHANNEL_ORIGINATE"
     ∧ process_event e sm = handle_originate e sm) ∨
  (getHeader e "Event-Name" = Some "CHANNEL_ANSWER"
     ∧ process_event e sm = handle_answer e sm) ∨
  (getHeader e "Event-Name" = Some "CHANNEL_HANGUP"
     ∧ process_event e sm = handle_hangup e sm) ∨
  (getHeader e "Event-Name" = Some "SERVER_DISCONNECTED"
     ∧ process_event e sm =
         (Return tt,
          set_logger (logger sm ++ [error_Failed_to_process_event e TypeError]) sm)) ∨
  (ev_handlers !! getHeader e "Event-Name" = None
     ∧ process_event e sm =
         (Return tt, set_logger (logger sm ++ [error_Unknown_event e]) sm)).
Proof.
  destruct (decide (Some "CHANNEL_ORIGINATE" = getHeader e "Event-Name")) as [H1|H1].
  { left. split; [done|]. by apply process_event_originate. }
  destruct (decide (Some "CHANNEL_ANSWER" = getHeader e "Event-Name")) as [H2|H2].
  { right; left. split; [done|]. by apply process_event_answer. }
  destruct (decide (Some "CHANNEL_HANGUP" = getHeader e "Event-Name")) as [H3|H3].
  { right; right; left. split; [done|]. by apply process_event_hangup. }
  destruct (decide (Some "SERVER_DISCONNECTED" = getHeader e "Event-Name")) as [H4|H4].
  { right; right; right; left. split; [done|]. by apply process_event_disconnected. }
  right; right; right; right.
  assert (ev_handlers !! getHeader e "Event-Name" = None) as Hnone.
  { rewrite ev_handlers_lookup. repeat case_decide; done. }
  split; [done|]. by apply process_event_unknown.
Qed.

(** No dispatch lets an exception out. *)
Lemma process_event_returns e sm : fst (process_event e sm) = Return tt.
Proof.
  destruct (process_event_cases e sm) as [[_ ->]|[[_ ->]|[[_ ->]|[[_ ->]|[_ ->]]]]];
    try reflexivity.
  - unfold handle_originate. unfold_M. repeat (case_bool_decide; cbn); reflexivity.
  - unfold handle_answer. unfold_M. repeat (case_bool_decide; cbn); reflexivity.
  - destruct (sessions sm !! getHeader e "Channel-Call-UUID") as [s|] eqn:Hin.
    + rewrite (handle_hangup_known e sm s Hin). reflexivity.
    + rewrite (handle_hangup_unknown e sm Hin). reflexivity.
Qed.

(** ** The termination flag *)

(** The flag is only ever raised by a hangup that empties the table once
    the total is reached. *)
Lemma terminate_raised_by_hangup e sm :
  terminate sm = false →
  terminate (exec (process_event e) sm) = true →
  getHeader e "Event-Name" = Some "CHANNEL_HANGUP"
  ∧ is_Some (sessions sm !! getHeader e "Channel-Call-UUID")
  ∧ total_originated_sessions sm >= max_sessions sm
  ∧ size (sessions (exec (process_event e) sm)) = 0%nat.
Proof.
  intros Hf. unfold exec.
  destruct (process_event_cases e sm) as [[Hn ->]|[[Hn ->]|[[Hn ->]|[[Hn ->]|[Hn ->]]]]].
  - unfold handle_originate. unfold_M.
    repeat (case_bool_decide; cbn); congruence.
  - unfold handle_answer. unfold_M.
    repeat (case_bool_decide; cbn); congruence.
  - destruct (sessions sm !! getHeader e "Channel-Call-UUID") as [s|] eqn:Hin.
    + rewrite (handle_hangup_known e sm s Hin). cbn [snd]. cbn zeta.
      destruct (bool_decide (total_originated_sessions sm >= max_sessions sm)) eqn:Ht;
        destruct (bool_decide (size (sessions (hangup_removed e s sm)) = 0%nat)) eqn:Hs;
        cbn [andb]; intros Hterm;
        try (unfold hangup_removed in Hterm; cbn in Hterm; congruence).
      apply bool_decide_eq_true_1 in Ht, Hs. eauto.
    + rewrite (handle_hangup_unknown e sm Hin). cbn. congruence.
  - cbn. congruence.
  - cbn. congruence.
Qed.

Lemma originate_loop_frame n : ∀ sesscnt sm,
  ∃ k, originate_loop n sesscnt sm =
    (Return tt,
     set_con (con sm ++ replicate k (api (bgapi_originate (originate_string sm)))) sm)
    ∧ Z.of_nat k = Z.max 0 (Z.min (Z.of_nat n) (limit sm - sesscnt)).
Proof.
  induction n as [|n IH]; intros sesscnt sm.
  - exists 0%nat. split; [|lia]. cbn. unfold_M.
    rewrite app_nil_r. by destruct sm.
  - cbn [originate_loop]. unfold_M. case_bool_decide as Hlim.
    + exists 0%nat. split; [|lia]. cbn. rewrite app_nil_r. by destruct sm.
    + destruct (IH (sesscnt + 1)
        (set_con (con sm ++ [api (bgapi_originate (originate_string sm))]) sm))
        as (k & -> & Hk).
      exists (S k). split.
      * cbn. rewrite <- app_assoc. reflexivity.
      * cbn [limit set_con] in Hk. lia.
Qed.

(** ** The rate-control tick *)

Lemma originate_sessions_done sm :
  total_originated_sessions sm >= max_sessions sm →
  originate_sessions sm =
    (Return tt,
     set_logger (logger sm ++ [info_Originating_sessions; info_Done_originating]) sm).
Proof.
  intros Hmax. unfold originate_sessions. unfold_M.
  cbn [total_originated_sessions max_sessions set_logger].
  rewrite bool_decide_eq_true_2 by exact Hmax.
  unfold set_logger; cbn. rewrite <- app_assoc. reflexivity.
Qed.

Lemma originate_sessions_batch sm :
  ¬ total_originated_sessions sm >= max_sessions sm →
  ∃ k : nat,
    Z.of_nat k = Z.max 0 (Z.min (rate sm) (limit sm - live sm))
    ∧ originate_sessions sm =
        (Return tt,
         set_sched
           (heappush
              (mkEvent (time_time sm (time_calls sm) + 1 * ticks_per_second) 1
                 originate_sessions_method [])
              (sched sm))
           (set_time_calls (S (time_calls sm))
              (set_con
                 (con sm ++ replicate k (api (bgapi_originate (originate_string sm))))
                 (set_logger (logger sm ++ [info_Originating_sessions]) sm)))).
Proof.
  intros Hmax. unfold originate_sessions. unfold_M.
  cbn [total_originated_sessions max_sessions set_logger].
  rewrite bool_decide_eq_false_2 by exact Hmax.
  cbn [sessions rate set_logger].
  destruct (originate_loop_frame (Z.to_nat (rate sm)) (live sm)
    (set_logger (logger sm ++ [info_Originating_sessions]) sm)) as (k & Hk & Hn).
  exists k. split.
  - cbn [limit set_logger] in Hn. lia.
  - unfold live in Hk. rewrite Hk. reflexivity.
Qed.

Lemma filter_is_originate_replicate k s :
  List.filter is_originate (replicate k (api (bgapi_originate s)))
  = replicate k (api (bgapi_originate s)).
Proof. induction k as [|k IH]; [done|]. cbn. by rewrite IH. Qed.

Lemma count_originate_app l1 l2 :
  count_originate (l1 ++ l2) = count_originate l1 + count_originate l2.
Proof.
  unfold count_originate. rewrite List.filter_app, List.length_app. lia.
Qed.

Lemma tick_commands_eq sm :
  tick_commands sm =
    if bool_decide (total_originated_sessions sm >= max_sessions sm) then 0
    else Z.max 0 (Z.min (rate sm) (limit sm - live sm)).
Proof.
  unfold tick_commands, exec. case_bool_decide as Hmax.
  - rewrite (originate_sessions_done sm Hmax). cbn. lia.
  - destruct (originate_sessions_batch sm Hmax) as (k & Hk & ->). cbn.
    rewrite count_originate_app. unfold count_originate at 2.
    rewrite filter_is_originate_replicate, length_replicate. lia.
Qed.

(** ** What a dispatch leaves alone *)

Lemma handle_originate_cases e sm :
  (getHeader e "Call-Direction" ≠ Some "outbound"
     ∧ handle_originate e sm = (Return tt, sm)) ∨
  (getHeader e "Call-Direction" = Some "outbound"
     ∧ is_Some (sessions sm !! getHeader e "Channel-Call-UUID")
     ∧ handle_originate e sm =
         (Return tt,
          set_logger (logger sm ++
            [debug_Originated_session (getHeader e "Channel-Call-UUID");
             error_duplicated_originate_session (getHeader e "Channel-Call-UUID")]) sm)) ∨
  (getHeader e "Call-Direction" = Some "outbound"
     ∧ sessions sm !! getHeader e "Channel-Call-UUID" = None
     ∧ handle_originate e sm =
         (Return tt,
          let u := getHeader e "Channel-Call-UUID" in
          set_con (con sm ++ [api (sched_hangup (duration sm) u)])
            (set_total_originated_sessions (total_originated_sessions sm + 1)
               (set_sessions (<[u := new_Session u]> (sessions sm))
                  (set_logger (logger sm ++ [debug_Originated_session u]) sm))))).
Proof.
  destruct (decide (getHeader e "Call-Direction" = Some "outbound")) as [Hd|Hd].
  - destruct (sessions sm !! getHeader e "Channel-Call-UUID") as [s|] eqn:Hin.
    + right; left. split; [done|]. split; [eauto|].
      apply handle_originate_duplicate; [done|]. rewrite Hin; eauto.
    + right; right. split; [done|]. split; [done|].
      by apply handle_originate_new.
  - left. split; [done|]. by apply handle_originate_not_outbound.
Qed.

Lemma handle_answer_cases e sm :
  (sessions sm !! getHeader e "Channel-Call-UUID" = None
     ∧ handle_answer e sm = (Return tt, sm)) ∨
  (∃ s, sessions sm !! getHeader e "Channel-Call-UUID" = Some s
     ∧ handle_answer e sm =
         (Return tt,
          let u := getHeader e "Channel-Call-UUID" in
          set_sessions (<[u := set_answered true s]> (sessions sm))
            (set_total_answered_sessions (total_answered_sessions sm + 1)
               (set_logger (logger sm ++ [debug_Answered_session u]) sm)))).
Proof.
  destruct (sessions sm !! getHeader e "Channel-Call-UUID") as [s|] eqn:Hin.
  - right. exists s. split; [done|]. by apply handle_answer_known.
  - left. split; [done|]. by apply handle_answer_unknown.
Qed.

Lemma handle_hangup_cases e sm :
  (sessions sm !! getHeader e "Channel-Call-UUID" = None
     ∧ handle_hangup e sm = (Return tt, sm)) ∨
  (∃ s, sessions sm !! getHeader e "Channel-Call-UUID" = Some s
     ∧ handle_hangup e sm =
         (Return tt,
          let sm1 := hangup_removed e s sm in
          if bool_decide (total_originated_sessions sm >= max_sessions sm)
             && bool_decide (size (sessions sm1) = 0%nat)
          then set_terminate true sm1 else sm1)).
Proof.
  destruct (sessions sm !! getHeader e "Channel-Call-UUID") as [s|] eqn:Hin.
  - right. exists s. split; [done|]. by apply handle_hangup_known.
  - left. split; [done|]. by apply handle_hangup_unknown.
Qed.

(** Every case of the dispatch, with the state it leaves. *)
Ltac dispatch_cases e sm :=
  let Hn := fresh "Hname" in
  destruct (process_event_cases e sm) as
    [[Hn ->]|[[Hn ->]|[[Hn ->]|[[Hn ->]|[Hn ->]]]]];
  [ destruct (handle_originate_cases e sm) as
      [[? ->]|[(? & ? & ->)|(? & ? & ->)]]
  | destruct (handle_answer_cases e sm) as [[? ->]|(? & ? & ->)]
  | destruct (handle_hangup_cases e sm) as [[? ->]|(? & ? & ->)]
  | | ].

Lemma process_event_frame e sm :
  let sm' := exec (process_event e) sm in
  rate sm' = rate sm ∧ limit sm' = limit sm
  ∧ max_sessions sm' = max_sessions sm ∧ duration sm' = duration sm
  ∧ originate_string sm' = originate_string sm
  ∧ sched sm' = sched sm
  ∧ time_time sm' = time_time sm ∧ time_calls sm' = time_calls sm
  ∧ total_originated_sessions sm <= total_originated_sessions sm'
  ∧ count_originate (con sm') = count_originate (con sm).
Proof.
  cbn zeta. unfold exec.
  dispatch_cases e sm; cbn [snd]; cbn zeta;
    try (case_match; unfold hangup_removed); cbn;
    repeat split; try reflexivity; try lia.
    rewrite count_originate_app. unfold count_originate at 2. cbn. lia.
Qed.

Lemma tick_frame sm :
  let sm' := exec originate_sessions sm in
  rate sm' = rate sm ∧ limit sm' = limit sm
  ∧ max_sessions sm' = max_sessions sm ∧ duration sm' = duration sm
  ∧ originate_string sm' = originate_string sm
  ∧ sessions sm' = sessions sm ∧ hangup_causes sm' = hangup_causes sm
  ∧ total_originated_sessions sm' = total_originated_sessions sm
  ∧ total_answered_sessions sm' = total_answered_sessions sm
  ∧ total_failed_sessions sm' = total_failed_sessions sm
  ∧ terminate sm' = terminate sm
  ∧ time_time sm' = time_time sm.
Proof.
  cbn zeta. unfold exec.
  destruct (decide (total_originated_sessions sm >= max_sessions sm)) as [Hmax|Hmax].
  - rewrite (originate_sessions_done sm Hmax). cbn. repeat split.
  - destruct (originate_sessions_batch sm Hmax) as (k & _ & ->). cbn. repeat split.
Qed.

Lemma exec_steps_app l1 l2 sm :
  exec_steps (l1 ++ l2) sm = exec_steps l2 (exec_steps l1 sm).
Proof. unfold exec_steps. apply fold_left_app. Qed.

Lemma exec_steps_cons s l sm :
  exec_steps (s :: l) sm = exec_steps l (exec_step s sm).
Proof. reflexivity. Qed.

(** ** Termination law *)

(** C1.  The claim asks that the dispatch of a [SERVER_DISCONNECTED] event
    sets the terminate flag.  [handle_disconnect] declares no parameter for
    the event that [process_event] passes to every handler: the call raises
    [TypeError], [process_event] catches and logs it, and the flag stays
    unset; the run loop goes on waiting for the next event. *)
Theorem disconnected_event_leaves_terminate_unset :
  process_event ev_disconnected (example_manager 1 1 1)
    = (Return tt,
       set_logger [error_Failed_to_process_event ev_disconnected TypeError]
         (example_manager 1 1 1))
  ∧ terminate (exec (process_event ev_disconnected) (example_manager 1 1 1)) = false
  ∧ ∃ sm, run 2 [Some ev_disconnected] (example_manager 1 1 1) = Waiting sm
          ∧ terminate sm = false
          ∧ logger sm = [info_Originating_sessions;
                         error_Failed_to_process_event ev_disconnected TypeError;
                         info_Originating_sessions].
Proof.
  split; [|split].
  - apply (process_event_disconnected ev_disconnected (example_manager 1 1 1)).
    reflexivity.
  - unfold exec.
    rewrite (process_event_disconnected ev_disconnected (example_manager 1 1 1))
      by reflexivity.
    reflexivity.
  - eexists. split; [vm_compute; reflexivity|]. split; reflexivity.
Qed.

(** ** Total ceiling *)

Lemma exec_step_total_reached s sm :
  total_originated_sessions sm >= max_sessions sm →
  let sm' := exec_step s sm in
  total_originated_sessions sm' >= max_sessions sm'
  ∧ max_sessions sm' = max_sessions sm
  ∧ total_originated_sessions sm <= total_originated_sessions sm'
  ∧ count_originate (con sm') = count_originate (con sm)
  ∧ sched sm' = sched sm.
Proof.
  intros Hmax. destruct s as [|e]; cbn [exec_step]; cbn zeta.
  - unfold exec. rewrite (originate_sessions_done sm Hmax). cbn.
    repeat split; [exact Hmax|lia].
  - destruct (process_event_frame e sm)
      as (_ & _ & Hm & _ & _ & Hs & _ & _ & Ht & Hc).
    rewrite Hm. repeat split; try done. lia.
Qed.

(** C2 (as the code has it).  Once [total_originated_sessions >=
    max_sessions], it stays so through every sequence of ticks and events,
    and no tick issues a further origination command or re-arms itself (the
    timer queue is left as it is), whatever the rate and the limit are.
    The total itself is not held under [max_sessions]: every outbound
    origination-confirmed event for an id that is not in the table adds one
    to it. *)
Theorem total_reached_stops_origination :
  (∀ (steps : list step) (sm : SessionManager),
     total_originated_sessions sm >= max_sessions sm →
     let sm' := exec_steps steps sm in
     total_originated_sessions sm' >= max_sessions sm'
     ∧ max_sessions sm' = max_sessions sm
     ∧ total_originated_sessions sm <= total_originated_sessions sm'
     ∧ count_originate (con sm') = count_originate (con sm)
     ∧ sched sm' = sched sm)
  ∧ (∀ (e : ESLevent) (sm : SessionManager),
       getHeader e "Event-Name" = Some "CHANNEL_ORIGINATE" →
       getHeader e "Call-Direction" = Some "outbound" →
       sessions sm !! getHeader e "Channel-Call-UUID" = None →
       total_originated_sessions (exec (process_event e) sm)
         = total_originated_sessions sm + 1).
Proof.
  split.
  - intros steps. induction steps as [|s steps IH]; intros sm Hmax; cbn zeta.
    + cbn. repeat split; [exact Hmax|lia].
    + rewrite exec_steps_cons.
      destruct (exec_step_total_reached s sm Hmax) as (H1 & H2 & H3 & H4 & H5).
      destruct (IH (exec_step s sm) H1) as (I1 & I2 & I3 & I4 & I5).
      repeat split; [exact I1|congruence|lia|congruence|congruence].
  - intros e sm Hn Hd Hin. unfold exec.
    rewrite (process_event_originate e sm Hn), (handle_originate_new e sm Hd Hin).
    reflexivity.
Qed.

(** With rate, limit and max_sessions 1, after the first confirmation: a
    tick, a hangup for an unknown id and a second tick issue no origination
    command and leave the timer queue as it is. *)
Lemma total_reached_stops_origination_example :
  let sm := exec_steps [tick; recv (ev_originate "a")] (example_manager 1 1 1) in
  let sm' := exec_steps [tick; recv (ev_hangup "b" "NORMAL_CLEARING"); tick] sm in
  total_originated_sessions sm >= max_sessions sm
  ∧ total_originated_sessions sm' >= max_sessions sm'
  ∧ max_sessions sm' = max_sessions sm
  ∧ total_originated_sessions sm <= total_originated_sessions sm'
  ∧ count_originate (con sm') = count_originate (con sm)
  ∧ sched sm' = sched sm.
Proof.
  cbn zeta.
  assert (total_originated_sessions
            (exec_steps [tick; recv (ev_originate "a")] (example_manager 1 1 1))
          >= max_sessions
            (exec_steps [tick; recv (ev_originate "a")] (example_manager 1 1 1)))
    as Hmax by (vm_compute; discriminate).
  split; [exact Hmax|].
  exact (proj1 total_reached_stops_origination
           [tick; recv (ev_hangup "b" "NORMAL_CLEARING"); tick]
           (exec_steps [tick; recv (ev_originate "a")] (example_manager 1 1 1))
           Hmax).
Defined.

(** C2 (as stated) fails: with rate 2, limit 2 and max_sessions 1 the first
    tick issues two origination commands, and the two confirmations bring
    the total to 2. *)
Lemma total_originated_exceeds_max_sessions :
  let sm := exec_steps [tick; recv (ev_originate "a"); recv (ev_originate "b")]
              (example_manager 2 2 1) in
  max_sessions sm = 1
  ∧ total_originated_sessions sm = 2
  ∧ ¬ total_originated_sessions sm <= max_sessions sm.
Proof.
  cbn zeta. split; [reflexivity|]. split; [reflexivity|].
  vm_compute. intros H; apply H; reflexivity.
Qed.

(** ** Rate ceiling *)

(** C6 (as the code has it).  A tick entered with [total_originated_sessions
    < max_sessions] issues [min(rate, max(0, limit - live))] origination
    commands, for a rate that is not negative; a tick entered with the total
    reached issues none.  Either way the commands of one tick do not exceed
    the rate, and do not take the live count at the entry of the tick above
    the limit. *)
Theorem tick_commands_rate_ceiling (sm : SessionManager) :
  0 <= rate sm →
  tick_commands sm =
    (if bool_decide (total_originated_sessions sm >= max_sessions sm) then 0
     else Z.min (rate sm) (Z.max 0 (limit sm - live sm)))
  ∧ 0 <= tick_commands sm <= rate sm
  ∧ live sm + tick_commands sm <= Z.max (limit sm) (live sm).
Proof.
  intros Hrate. rewrite tick_commands_eq.
  case_bool_decide; repeat split; lia.
Qed.

(** With rate 2, limit 2 and max_sessions 4, after two confirmations and one
    hangup: the tick issues one command. *)
Lemma tick_commands_rate_ceiling_example :
  let sm := exec_steps [tick; recv (ev_originate "a"); recv (ev_originate "b");
                        recv (ev_hangup "b" "NO_ANSWER")] (example_manager 2 2 4) in
  0 <= rate sm
  ∧ tick_commands sm = 1
  ∧ tick_commands sm =
      (if bool_decide (total_originated_sessions sm >= max_sessions sm) then 0
       else Z.min (rate sm) (Z.max 0 (limit sm - live sm)))
  ∧ 0 <= tick_commands sm <= rate sm
  ∧ live sm + tick_commands sm <= Z.max (limit sm) (live sm).
Proof.
  cbn zeta. split; [vm_compute; discriminate|]. split; [vm_compute; reflexivity|].
  apply (tick_commands_rate_ceiling
           (exec_steps [tick; recv (ev_originate "a"); recv (ev_originate "b");
                        recv (ev_hangup "b" "NO_ANSWER")] (example_manager 2 2 4))).
  vm_compute; discriminate.
Defined.

(** C6 (as stated) fails: with rate 1, limit 2 and max_sessions 1, the tick
    that follows the first confirmation finds one live session and the total
    reached; it issues no command, where [min(rate, max(0, limit - live))]
    is 1. *)
Lemma tick_after_total_reached_issues_nothing :
  let sm := exec_steps [tick; recv (ev_originate "a")] (example_manager 1 2 1) in
  tick_commands sm = 0
  ∧ Z.min (rate sm) (Z.max 0 (limit sm - live sm)) = 1
  ∧ tick_commands sm ≠ Z.min (rate sm) (Z.max 0 (limit sm - live sm)).
Proof.
  cbn zeta. split; [vm_compute; reflexivity|]. split; [vm_compute; reflexivity|].
  vm_compute. discriminate.
Qed.

(** ** Duplicate origination *)

(** C8.  An outbound origination-confirmed event for an id that is in the
    session table is logged and ignored: the dispatch returns, and the state
    it leaves differs from the state before in the two log records only; the
    table with its Session objects and every counter are as they were. *)
Theorem duplicate_originate_ignored (e : ESLevent) (sm : SessionManager) :
  getHeader e "Event-Name" = Some "CHANNEL_ORIGINATE" →
  getHeader e "Call-Direction" = Some "outbound" →
  is_Some (sessions sm !! getHeader e "Channel-Call-UUID") →
  let sm' := exec (process_event e) sm in
  process_event e sm =
    (Return tt,
     set_logger (logger sm ++
       [debug_Originated_session (getHeader e "Channel-Call-UUID");
        error_duplicated_originate_session (getHeader e "Channel-Call-UUID")]) sm)
  ∧ sessions sm' = sessions sm
  ∧ total_originated_sessions sm' = total_originated_sessions sm
  ∧ total_answered_sessions sm' = total_answered_sessions sm
  ∧ total_failed_sessions sm' = total_failed_sessions sm
  ∧ hangup_causes sm' = hangup_causes sm
  ∧ terminate sm' = terminate sm
  ∧ sched sm' = sched sm ∧ con sm' = con sm.
Proof.
  intros Hn Hd Hin. cbn zeta. unfold exec.
  rewrite (process_event_originate e sm Hn).
  rewrite (handle_originate_duplicate e sm Hd Hin).
  cbn. repeat split.
Qed.

(** A second confirmation for the answered session "a". *)
Lemma duplicate_originate_ignored_example :
  let sm := exec_steps [tick; recv (ev_originate "a"); recv (ev_answer "a")]
              (example_manager 1 1 1) in
  let sm' := exec (process_event (ev_originate "a")) sm in
  sessions sm !! Some "a" = Some {| uuid := Some "a"; answered := true |}
  ∧ sessions sm' = sessions sm
  ∧ total_originated_sessions sm' = total_originated_sessions sm.
Proof.
  cbn zeta. split; [vm_compute; reflexivity|].
  pose proof (duplicate_originate_ignored (ev_originate "a")
    (exec_steps [tick; recv (ev_originate "a"); recv (ev_answer "a")]
       (example_manager 1 1 1))) as H.
  cbn zeta in H.
  destruct H as (_ & Hs & Ht & _).
  - vm_compute; reflexivity.
  - vm_compute; reflexivity.
  - vm_compute. eexists; reflexivity.
  - split; [exact Hs|exact Ht].
Defined.

(** ** Handler exceptions and unknown events *)

(** C9.  No dispatch lets an exception out: [process_event] returns for
    every event and state.  When the call of the handler raises, the state
    at the raise is the state before the event, and the dispatch leaves it
    with one more log record that holds the event and the exception: the
    session table and the counters are untouched, and the terminate flag is
    as it was, so the run loop goes on.  An event whose name has no handler
    leaves the state with one more log record and no other change. *)
Theorem process_event_contains_exceptions (e : ESLevent) (sm : SessionManager) :
  fst (process_event e sm) = Return tt
  ∧ (∀ h ex sm1,
       ev_handlers !! getHeader e "Event-Name" = Some h →
       call1 h e sm = (Raise ex, sm1) →
       sm1 = sm
       ∧ exec (process_event e) sm =
           set_logger (logger sm ++ [error_Failed_to_process_event e ex]) sm)
  ∧ (ev_handlers !! getHeader e "Event-Name" = None →
       exec (process_event e) sm =
         set_logger (logger sm ++ [error_Unknown_event e]) sm).
Proof.
  split; [apply process_event_returns|]. split.
  - intros h ex sm1 Hh Hraise.
    assert (sm1 = sm) as ->.
    { rewrite ev_handlers_lookup in Hh.
      repeat case_decide; simplify_eq; cbn [call1] in Hraise.
      - pose proof (process_event_returns e sm) as Hr.
        rewrite process_event_originate in Hr by done.
        rewrite Hraise in Hr. discriminate.
      - pose proof (process_event_returns e sm) as Hr.
        rewrite process_event_answer in Hr by done.
        rewrite Hraise in Hr. discriminate.
      - pose proof (process_event_returns e sm) as Hr.
        rewrite process_event_hangup in Hr by done.
        rewrite Hraise in Hr. discriminate.
      - unfold raise in Hraise. congruence. }
    split; [reflexivity|].
    unfold exec, process_event. rewrite Hh. unfold try_except.
    rewrite Hraise. reflexivity.
  - intros Hnone. unfold exec. rewrite (process_event_unknown e sm Hnone).
    reflexivity.
Qed.

(** The handler that raises, and an event name that has no handler. *)
Lemma process_event_contains_exceptions_example :
  call1 (method0 handle_disconnect) ev_disconnected (example_manager 1 1 1)
    = (Raise TypeError, example_manager 1 1 1)
  ∧ exec (process_event ev_disconnected) (example_manager 1 1 1) =
      set_logger (logger (example_manager 1 1 1)
                  ++ [error_Failed_to_process_event ev_disconnected TypeError])
        (example_manager 1 1 1)
  ∧ exec (process_event (mk_event [("Event-Name", "HEARTBEAT")])) (example_manager 1 1 1) =
      set_logger (logger (example_manager 1 1 1)
                  ++ [error_Unknown_event (mk_event [("Event-Name", "HEARTBEAT")])])
        (example_manager 1 1 1).
Proof.
  split; [reflexivity|]. split.
  - apply (proj1 (proj2 (process_event_contains_exceptions ev_disconnected
             (example_manager 1 1 1)))
             (method0 handle_disconnect) TypeError (example_manager 1 1 1)).
    + vm_compute; reflexivity.
    + reflexivity.
  - apply (proj2 (proj2 (process_event_contains_exceptions
             (mk_event [("Event-Name", "HEARTBEAT")]) (example_manager 1 1 1)))).
    vm_compute; reflexivity.
Defined.

(** ** Hangup of an unknown id, repeated answers *)



(** ** Forced hangup *)

(** C4 (as the code has it).  No dispatch changes the timer queue.  An
    outbound origination-confirmed event that creates a session asks the
    switch for the forced hangup, by the one command [sched_hangup
    +duration uuid NORMAL_CLEARING] issued on the connection at once; the
    hangup is timed by the switch, and nothing is entered in the timer
    queue, whose only entries are those that the rate-control tick enters
    for itself. *)
Theorem forced_hangup_is_a_transport_command (e : ESLevent) (sm : SessionManager) :
  let sm' := exec (process_event e) sm in
  sched sm' = sched sm
  ∧ (getHeader e "Event-Name" = Some "CHANNEL_ORIGINATE" →
     getHeader e "Call-Direction" = Some "outbound" →
     sessions sm !! getHeader e "Channel-Call-UUID" = None →
     sessions sm' !! getHeader e "Channel-Call-UUID"
       = Some (new_Session (getHeader e "Channel-Call-UUID"))
     ∧ total_originated_sessions sm' = total_originated_sessions sm + 1
     ∧ con sm' =
         con sm ++ [api (sched_hangup (duration sm) (getHeader e "Channel-Call-UUID"))]).
Proof.
  cbn zeta. split.
  - apply (process_event_frame e sm).
  - intros Hn Hd Hin. unfold exec.
    rewrite (process_event_originate e sm Hn), (handle_originate_new e sm Hd Hin).
    cbn. split; [apply lookup_insert_eq|]. split; reflexivity.
Qed.

(** The confirmation of session "a" after the first tick, with a duration
    of 60 s. *)
Lemma forced_hangup_is_a_transport_command_example :
  let sm := exec_step tick (example_manager 1 1 5) in
  let sm' := exec (process_event (ev_originate "a")) sm in
  sessions sm' !! Some "a" = Some (new_Session (Some "a"))
  ∧ total_originated_sessions sm' = total_originated_sessions sm + 1
  ∧ con sm' = con sm ++ [api (sched_hangup 60 (Some "a"))].
Proof.
  cbn zeta.
  apply (proj2 (forced_hangup_is_a_transport_command (ev_originate "a")
                  (exec_step tick (example_manager 1 1 5)))); reflexivity.
Defined.

(** C4 (as stated) fails: after the first tick the timer queue holds the
    tick re-armed for 1 s later.  The confirmation of session "a", with a
    duration of 60 s, creates the session and leaves the queue with that
    entry alone: no entry is due 60 s later, and the hangup went to the
    connection as a command. *)
Lemma forced_hangup_is_not_a_timer_entry :
  let sm := exec_step tick (example_manager 1 1 5) in
  let sm' := exec (process_event (ev_originate "a")) sm in
  is_Some (sessions sm' !! Some "a")
  ∧ sched sm' = [mkEvent (1 * ticks_per_second) 1 originate_sessions_method []]
  ∧ ¬ (∃ ev, ev ∈ sched sm' ∧ time ev >= 60 * ticks_per_second)
  ∧ last (con sm') = Some (api (sched_hangup 60 (Some "a"))).
Proof.
  cbn zeta. split; [vm_compute; eexists; reflexivity|].
  split; [vm_compute; reflexivity|]. split; [|vm_compute; reflexivity].
  intros (ev & Hin & Ht).
  assert (sched (exec (process_event (ev_originate "a"))
                   (exec_step tick (example_manager 1 1 5)))
          = [mkEvent (1 * ticks_per_second) 1 originate_sessions_method []]) as Hq
    by (vm_compute; reflexivity).
  rewrite Hq in Hin. apply list_elem_of_singleton in Hin. subst ev.
  cbn in Ht. unfold ticks_per_second in Ht. lia.
Qed.

(** ** The wait for the next event *)

Lemma wait_timeout_eq sm :
  wait_timeout sm =
    match sched sm with
    | [] => -1000
    | ev :: _ =>
        1000 * Z.max 1 ((time ev - time_time sm (time_calls sm)) ÷ ticks_per_second)
    end.
Proof.
  unfold wait_timeout, sched_next_event_time_delta, next_event_time_delta.
  destruct (sched sm) as [|ev q]; [reflexivity|].
  unfold sm_timefunc. unfold recv_timeout.
  assert (0 < ticks_per_second) as Hpos by (unfold ticks_per_second; lia).
  destruct (Z.ltb_spec (time_time sm (time_calls sm)) (time ev)) as [Hlt|Hge];
    cbn [fst].
  - pose proof (Z.quot_pos (time ev - time_time sm (time_calls sm))
                  ticks_per_second ltac:(lia) Hpos) as Hq.
    destruct (Z.eqb_spec
      ((time ev - time_time sm (time_calls sm)) ÷ ticks_per_second) 0); lia.
  - pose proof (Z.quot_le_mono (time ev - time_time sm (time_calls sm)) 0
                  ticks_per_second Hpos ltac:(lia)) as Hq.
    rewrite Z.quot_0_l in Hq by lia. cbn. lia.
Qed.

(** C3 (as the code has it).  The iteration of the run loop that follows a
    drain blocks on the transport with the timeout [wait_timeout].  On an
    empty timer queue [next_event_time_delta] returns -1, the loop replaces
    0 only, and the timeout is -1000 ms: the sentinel is passed on, times
    1000.  On a queue that is not empty the timeout is a whole number of
    seconds, at least 1000 ms: the seconds until the earliest entry is due,
    or one second when that is less. *)
Theorem run_loop_wait_timeout (fuel : nat) (sm sm1 : SessionManager) :
  sched_fast_run fuel sm = Some sm1 →
  (∃ sm3, run_loop fuel [] sm = Waiting sm3
          ∧ con sm3 = con sm1 ++ [recvEventTimed (wait_timeout sm1)])
  ∧ (sched sm1 = [] → wait_timeout sm1 = -1000)
  ∧ (∀ ev q, sched sm1 = ev :: q →
       wait_timeout sm1 =
         1000 * Z.max 1 ((time ev - time_time sm1 (time_calls sm1)) ÷ ticks_per_second)
       ∧ 1000 <= wait_timeout sm1).
Proof.
  intros Hrun. split; [|split].
  - unfold run_loop. rewrite Hrun. unfold wait_timeout.
    destruct (sched_next_event_time_delta sm1) as [d sm2] eqn:Hd.
    eexists. split; [reflexivity|]. cbn.
    revert Hd. unfold sched_next_event_time_delta, next_event_time_delta.
    destruct (sched sm1) as [|ev q].
    + intros [= <- <-]. reflexivity.
    + unfold sm_timefunc. case_match; intros [= <- <-]; reflexivity.
  - intros Hq. rewrite wait_timeout_eq, Hq. reflexivity.
  - intros ev q Hq. rewrite wait_timeout_eq, Hq. split; [reflexivity|]. lia.
Qed.

(** After the first tick the queue holds the tick due at 1 s; the drain at
    0.6 s runs nothing, and the loop waits 1000 ms. *)
Lemma run_loop_wait_timeout_example :
  let sm := exec_steps [tick] (example_manager 1 1 5) in
  ∃ sm1,
    sched_fast_run 1 sm = Some sm1
    ∧ sched sm1 = [mkEvent (1 * ticks_per_second) 1 originate_sessions_method []]
    ∧ wait_timeout sm1 = 1000
    ∧ ∃ sm3, run_loop 1 [] sm = Waiting sm3
             ∧ con sm3 = con sm1 ++ [recvEventTimed (wait_timeout sm1)].
Proof.
  cbn zeta. eexists. split; [vm_compute; reflexivity|].
  split; [reflexivity|]. split; [vm_compute; reflexivity|].
  eapply (proj1 (run_loop_wait_timeout 1
            (exec_steps [tick] (example_manager 1 1 5)) _ _)).
  Unshelve. vm_compute; reflexivity.
Defined.

(** C3 (as stated) fails: with rate, limit and max_sessions 1, the first
    confirmation brings the total to 1; the tick that is due next finds the
    total reached and does not re-arm, the timer queue is empty, and the
    loop blocks on the transport with a timeout of -1000 ms. *)
Lemma empty_queue_timeout_is_negative :
  ∃ sm, run 2 [Some (ev_originate "a")] (example_manager 1 1 1) = Waiting sm
        ∧ sched sm = []
        ∧ last (con sm) = Some (recvEventTimed (-1000))
        ∧ terminate sm = false.
Proof.
  eexists. split; [vm_compute; reflexivity|]. repeat split.
Qed.

(** ** Counter consistency *)

Lemma removes_not_hangup e sm :
  getHeader e "Event-Name" ≠ Some "CHANNEL_HANGUP" → removes (recv e) sm = false.
Proof. intros Hn. cbn. apply bool_decide_eq_false_2. tauto. Qed.

Lemma exec_step_balance s sm :
  live (exec_step s sm) - total_originated_sessions (exec_step s sm)
    + (if removes s sm then 1 else 0)
  = live sm - total_originated_sessions sm.
Proof.
  destruct s as [|e]; cbn [exec_step].
  - destruct (tick_frame sm) as (_ & _ & _ & _ & _ & Hs & _ & Ht & _).
    unfold live. rewrite Hs, Ht. cbn. lia.
  - unfold exec, live.
    destruct (process_event_cases e sm) as
      [[Hn ->]|[[Hn ->]|[[Hn ->]|[[Hn ->]|[Hn ->]]]]].
    + rewrite removes_not_hangup by (rewrite Hn; discriminate).
      destruct (handle_originate_cases e sm) as
        [[Hd ->]|[(Hd & Hin & ->)|(Hd & Hin & ->)]]; cbn; try lia.
      rewrite map_size_insert_None by exact Hin. lia.
    + rewrite removes_not_hangup by (rewrite Hn; discriminate).
      destruct (handle_answer_cases e sm) as [[Hin ->]|(s & Hin & ->)]; cbn; try lia.
      rewrite map_size_insert_Some by (rewrite Hin; eauto). lia.
    + destruct (handle_hangup_cases e sm) as [[Hin ->]|(s & Hin & ->)].
      * cbn [removes snd]. rewrite bool_decide_eq_false_2; [lia|].
        rewrite Hin. intros [_ []]. discriminate.
      * assert (removes (recv e) sm = true) as ->.
        { cbn [removes]. apply bool_decide_eq_true_2. rewrite Hin. eauto. }
        assert (size (sessions sm) ≠ 0%nat) as Hne.
        { intros Hz. apply map_size_empty_inv in Hz. rewrite Hz in Hin.
          rewrite lookup_empty in Hin. discriminate. }
        cbn zeta. case_match; unfold hangup_removed; cbn;
          rewrite map_size_delete_Some by (rewrite Hin; eauto); lia.
    + rewrite removes_not_hangup by (rewrite Hn; discriminate). cbn. lia.
    + rewrite removes_not_hangup; [cbn; lia|].
      intros Hh. rewrite Hh in Hn. rewrite ev_handlers_lookup in Hn.
      repeat case_decide; done.
Qed.

Lemma exec_steps_balance steps : ∀ sm,
  live (exec_steps steps sm) - total_originated_sessions (exec_steps steps sm)
    + removed steps sm
  = live sm - total_originated_sessions sm.
Proof.
  induction steps as [|s steps IH]; intros sm.
  - cbn. lia.
  - rewrite exec_steps_cons. cbn [removed].
    pose proof (IH (exec_step s sm)). pose proof (exec_step_balance s sm). lia.
Qed.

Lemma exec_step_origin s sm u :
  is_Some (sessions (exec_step s sm) !! u) →
  (is_Some (sessions sm !! u) ∧ ¬ is_hangup_of u s) ∨ is_outbound_originate u s.
Proof.
  destruct s as [|e]; cbn [exec_step].
  - destruct (tick_frame sm) as (_ & _ & _ & _ & _ & Hs & _).
    rewrite Hs. intros Hin. left. split; [exact Hin|]. cbn. tauto.
  - unfold exec. cbn [is_hangup_of is_outbound_originate].
    destruct (process_event_cases e sm) as
      [[Hn ->]|[[Hn ->]|[[Hn ->]|[[Hn ->]|[Hn ->]]]]].
    + destruct (handle_originate_cases e sm) as
        [[Hd ->]|[(Hd & Hin & ->)|(Hd & Hin & ->)]]; cbn;
        try (intros Hu; left; split; [exact Hu|]; intros [Hh _]; congruence).
      rewrite lookup_insert_is_Some. intros [Heq|[Hne Hu]].
      * right. tauto.
      * left. split; [exact Hu|]. intros [Hh _]; congruence.
    + destruct (handle_answer_cases e sm) as [[Hin ->]|(s & Hin & ->)]; cbn;
        try (intros Hu; left; split; [exact Hu|]; intros [Hh _]; congruence).
      rewrite lookup_insert_is_Some. intros [Heq|[Hne Hu]].
      * left. subst u. split; [rewrite Hin; eauto|]. intros [Hh _]; congruence.
      * left. split; [exact Hu|]. intros [Hh _]; congruence.
    + destruct (handle_hangup_cases e sm) as [[Hin ->]|(s & Hin & ->)].
      * cbn. intros Hu. left. split; [exact Hu|].
        intros [_ Heq]. subst u. rewrite Hin in Hu. by destruct Hu.
      * cbn [snd]. cbn zeta.
        assert (is_Some (sessions (hangup_removed e s sm) !! u) →
                is_Some (sessions sm !! u)
                ∧ ¬ (getHeader e "Event-Name" = Some "CHANNEL_HANGUP"
                     ∧ getHeader e "Channel-Call-UUID" = u)) as Hrem.
        { unfold hangup_removed. cbn. rewrite lookup_delete_is_Some.
          intros [Hne Hu]. split; [exact Hu|]. intros [_ Heq]. congruence. }
        case_match; cbn; intros Hu; left; apply Hrem; exact Hu.
    + cbn. intros Hu; left; split; [exact Hu|]; intros [Hh _]; congruence.
    + cbn. intros Hu; left; split; [exact Hu|]. intros [Hh _].
      rewrite Hh in Hn. rewrite ev_handlers_lookup in Hn.
      repeat case_decide; done.
Qed.

Lemma exec_steps_snoc steps s sm :
  exec_steps (steps ++ [s]) sm = exec_step s (exec_steps steps sm).
Proof. rewrite exec_steps_app. reflexivity. Qed.

Lemma exec_steps_origin steps sm0 :
  sessions sm0 = ∅ →
  ∀ u, is_Some (sessions (exec_steps steps sm0) !! u) →
  ∃ i s, steps !! i = Some s ∧ is_outbound_originate u s
         ∧ ∀ j s', (i < j)%nat → steps !! j = Some s' → ¬ is_hangup_of u s'.
Proof.
  intros Hempty. induction steps as [|s steps IH] using rev_ind; intros u.
  - cbn. rewrite Hempty, lookup_empty. intros []. discriminate.
  - rewrite exec_steps_snoc. intros Hu.
    destruct (exec_step_origin s (exec_steps steps sm0) u Hu) as [[Hold Hnh]|Hnew].
    + destruct (IH u Hold) as (i & si & Hi & Horig & Hafter).
      exists i, si. split; [|split; [exact Horig|]].
      * apply lookup_app_l_Some. exact Hi.
      * intros j s' Hij Hj. apply lookup_snoc_Some in Hj as [[_ Hj]|[_ <-]].
        -- by apply (Hafter j).
        -- exact Hnh.
    + exists (length steps), s. split; [|split; [exact Hnew|]].
      * apply list_lookup_middle. reflexivity.
      * intros j s' Hij Hj. apply lookup_lt_Some in Hj.
        rewrite length_app in Hj. cbn in Hj. lia.
Qed.

(** C7.  From a state with an empty session table and no session originated
    (as [__init__] leaves it), after every sequence of ticks and processed
    events the size of the session table is [total_originated_sessions]
    minus the number of sessions removed by hangup events; and every id in
    the table was added by an outbound origination-confirmed event of the
    sequence that no hangup event for that id follows. *)
Theorem session_table_counter_consistency (steps : list step) (sm0 : SessionManager) :
  sessions sm0 = ∅ →
  total_originated_sessions sm0 = 0 →
  let sm := exec_steps steps sm0 in
  live sm = total_originated_sessions sm - removed steps sm0
  ∧ ∀ u, is_Some (sessions sm !! u) →
      ∃ i s, steps !! i = Some s ∧ is_outbound_originate u s
             ∧ ∀ j s', (i < j)%nat → steps !! j = Some s' → ¬ is_hangup_of u s'.
Proof.
  intros Hempty Hzero. cbn zeta. split.
  - pose proof (exec_steps_balance steps sm0) as Hb.
    unfold live in Hb at 2. rewrite Hempty, map_size_empty, Hzero in Hb.
    cbn in Hb. lia.
  - by apply exec_steps_origin.
Qed.

(** Two sessions originated, one answered, the other hung up; a hangup for
    an unknown id removes nothing. *)
Lemma session_table_counter_consistency_example :
  let steps := [tick; recv (ev_originate "a"); recv (ev_originate "b");
                recv (ev_answer "a"); recv (ev_hangup "b" "NO_ANSWER"); tick;
                recv (ev_hangup "c" "NORMAL_CLEARING")] in
  let sm := exec_steps steps (example_manager 2 2 4) in
  removed steps (example_manager 2 2 4) = 1
  ∧ total_originated_sessions sm = 2
  ∧ live sm = total_originated_sessions sm - removed steps (example_manager 2 2 4)
  ∧ ∀ u, is_Some (sessions sm !! u) →
      ∃ i s, steps !! i = Some s ∧ is_outbound_originate u s
             ∧ ∀ j s', (i < j)%nat → steps !! j = Some s' → ¬ is_hangup_of u s'.
Proof.
  cbn zeta. split; [vm_compute; reflexivity|]. split; [vm_compute; reflexivity|].
  apply (session_table_counter_consistency
           [tick; recv (ev_originate "a"); recv (ev_originate "b");
            recv (ev_answer "a"); recv (ev_hangup "b" "NO_ANSWER"); tick;
            recv (ev_hangup "c" "NORMAL_CLEARING")] (example_manager 2 2 4));
    reflexivity.
Defined.

(** ** The timer drain *)

Lemma filter_none {A} (P : A → Prop) `{∀ x, Decision (P x)} (l : list A) :
  Forall (fun x => ¬ P x) l → filter P l = [].
Proof.
  induction 1 as [|x l Hx _ IH]; [reflexivity|].
  by rewrite filter_cons_False.
Qed.

Lemma filter_all {A} (P : A → Prop) `{∀ x, Decision (P x)} (l : list A) :
  Forall P l → filter P l = l.
Proof.
  induction 1 as [|x l Hx _ IH]; [reflexivity|].
  rewrite filter_cons_True by done. by rewrite IH.
Qed.

Section FastSchedulerDrain.
Context {Action Arg St : Type}.
Context `{EqDecision Action, EqDecision Arg}.
Variable queue : St -> list (Event Action Arg).
Variable set_queue : list (Event Action Arg) -> St -> St.
Variable call : Action -> list Arg -> St -> St.

Lemma heappush_Permutation (ev : Event Action Arg) q : heappush ev q ≡ₚ ev :: q.
Proof.
  induction q as [|x q IH]; cbn; [reflexivity|].
  case_match; [reflexivity|]. rewrite IH. apply Permutation_swap.
Qed.

Lemma heappush_by_due_time (ev : Event Action Arg) q :
  by_due_time q → by_due_time (heappush ev q).
Proof.
  unfold by_due_time. induction q as [|x q IH]; cbn; intros Hs.
  - repeat constructor.
  - apply StronglySorted_cons in Hs as [Hx Hq].
    destruct (event_ltb ev x) eqn:Hlt.
    + assert (time ev <= time x) as Hle.
      { unfold event_ltb in Hlt. lia. }
      apply StronglySorted_cons. split.
      * constructor; [exact Hle|].
        eapply Forall_impl; [exact Hx|]. cbn. intros y Hy. lia.
      * apply StronglySorted_cons. split; assumption.
    + assert (time x <= time ev) as Hle.
      { unfold event_ltb in Hlt. lia. }
      apply StronglySorted_cons. split; [|by apply IH].
      rewrite heappush_Permutation. constructor; assumption.
Qed.

(** More fuel does not change the result of a loop that has ended. *)
Lemma fast_run_loop_fuel now : ∀ fuel fuel' st r,
  fast_run_loop queue set_queue call fuel now st = Some r →
  (fuel <= fuel')%nat →
  fast_run_loop queue set_queue call fuel' now st = Some r.
Proof.
  induction fuel as [|fuel IH]; intros fuel' st r Hrun Hle; [discriminate|].
  destruct fuel' as [|fuel']; [lia|].
  cbn [fast_run_loop] in *.
  destruct (queue st) as [|ev q]; [exact Hrun|].
  destruct (now <? time ev); [exact Hrun|].
  destruct (now >=? time ev).
  - destruct (fast_run_loop queue set_queue call fuel now
                (call (action ev) (argument ev) (cancel queue set_queue ev st)))
      as [[tr st']|] eqn:Hrec; [|discriminate].
    rewrite (IH fuel' _ _ Hrec) by lia. exact Hrun.
  - apply IH; [exact Hrun|lia].
Qed.

(** What a drain that ends has done, whatever its actions schedule, as long
    as they keep the heap in order: every entry that was run was due at the
    sample and out of the queue when its action was called, and no entry
    left in the queue is due at the sample. *)
Lemma fast_run_loop_sound now :
  (∀ q st, queue (set_queue q st) = q) →
  (∀ a arg st, by_due_time (queue st) → by_due_time (queue (call a arg st))) →
  ∀ fuel st tr st',
    by_due_time (queue st) →
    fast_run_loop queue set_queue call fuel now st = Some (tr, st') →
    Forall (fun i => due now (run_event i)) tr
    ∧ Forall (fun i => queue_before i = run_event i :: queue_at_call i) tr
    ∧ Forall (fun ev => now < time ev) (queue st').
Proof.
  intros Hset Hcall.
  induction fuel as [|fuel IH]; intros st tr st' Hsorted Hrun; [discriminate|].
  cbn [fast_run_loop] in Hrun.
  destruct (queue st) as [|ev q] eqn:Hq.
  { injection Hrun as <- <-. rewrite Hq. repeat split; constructor. }
  apply StronglySorted_cons in Hsorted as [Hev Hqs].
  destruct (Z.ltb_spec now (time ev)) as [Hlater|Hdue].
  { injection Hrun as <- <-. rewrite Hq. split; [constructor|].
    split; [constructor|]. constructor; [exact Hlater|].
    eapply Forall_impl; [exact Hev|]. cbn. intros x Hx. lia. }
  assert ((now >=? time ev) = true) as Hge by lia. rewrite Hge in Hrun.
  assert (queue (cancel queue set_queue ev st) = q) as Hcancel.
  { unfold cancel. rewrite Hset, Hq. cbn. by rewrite decide_True. }
  destruct (fast_run_loop queue set_queue call fuel now
              (call (action ev) (argument ev) (cancel queue set_queue ev st)))
    as [[tr0 st0]|] eqn:Hrec; [|discriminate].
  injection Hrun as <- <-.
  destruct (IH _ _ _ (Hcall _ _ _ ltac:(rewrite Hcancel; exact Hqs)) Hrec)
    as (Hdues & Hremoved & Hleft).
  split; [constructor; [exact Hdue|exact Hdues]|].
  split; [|exact Hleft].
  constructor; [|exact Hremoved]. cbn. by rewrite Hcancel.
Qed.

Variable now : Z.
Variable Inv : St -> Prop.

Hypothesis queue_set_queue : ∀ q st, queue (set_queue q st) = q.
Hypothesis Inv_set_queue : ∀ q st, Inv st → Inv (set_queue q st).
Hypothesis call_Inv : ∀ a arg st, Inv st → Inv (call a arg st).
Hypothesis call_by_due_time : ∀ a arg st,
  Inv st → by_due_time (queue st) → by_due_time (queue (call a arg st)).
Hypothesis call_adds_later : ∀ a arg st,
  Inv st →
  ∃ added, queue (call a arg st) ≡ₚ added ++ queue st
           ∧ Forall (fun ev => now < time ev) added.

(** The drain, for actions that keep the heap in order and that only add
    entries, all due after the sample: the entries due at the sample are
    run, each one removed before its action is called, earliest first; the
    others stay. *)
Lemma fast_run_loop_drains : ∀ fuel st,
  Inv st → by_due_time (queue st) →
  (length (filter (due now) (queue st)) < fuel)%nat →
  ∃ tr st',
    fast_run_loop queue set_queue call fuel now st = Some (tr, st')
    ∧ Inv st'
    ∧ map run_event tr ≡ₚ filter (due now) (queue st)
    ∧ StronglySorted Z.le (map time (map run_event tr))
    ∧ Forall (fun i => queue_before i = run_event i :: queue_at_call i) tr
    ∧ Forall (fun ev => now < time ev) (queue st')
    ∧ ∃ added, queue st' ≡ₚ added ++ filter (fun ev => ¬ due now ev) (queue st)
               ∧ Forall (fun ev => now < time ev) added.
Proof.
  induction fuel as [|fuel IH]; intros st HInv Hsorted Hfuel; [lia|].
  cbn [fast_run_loop].
  destruct (queue st) as [|ev q] eqn:Hq.
  { exists [], st. rewrite Hq. repeat split; try constructor; try done.
    exists []. split; [reflexivity|constructor]. }
  apply StronglySorted_cons in Hsorted as [Hev Hqs].
  destruct (Z.ltb_spec now (time ev)) as [Hlater|Hdue].
  { assert (Forall (fun x : Event Action Arg => now < time x) (ev :: q)) as Hall.
    { constructor; [exact Hlater|].
      eapply Forall_impl; [exact Hev|]. cbn. intros x Hx. lia. }
    exists [], st. rewrite Hq. split; [reflexivity|]. split; [exact HInv|].
    split.
    { rewrite filter_none; [reflexivity|].
      eapply Forall_impl; [exact Hall|]. unfold due. cbn. intros x Hx. lia. }
    split; [constructor|]. split; [constructor|]. split; [exact Hall|].
    exists []. split; [|constructor]. cbn [app].
    rewrite filter_all; [reflexivity|].
    eapply Forall_impl; [exact Hall|]. unfold due. cbn. intros x Hx. lia. }
  assert ((now >=? time ev) = true) as -> by lia.
  assert (queue (cancel queue set_queue ev st) = q) as Hcancel.
  { unfold cancel. rewrite queue_set_queue, Hq. cbn. by rewrite decide_True. }
  assert (Inv (cancel queue set_queue ev st)) as HInv1
    by (by apply Inv_set_queue).
  set (st1 := cancel queue set_queue ev st) in *.
  set (st2 := call (action ev) (argument ev) st1).
  assert (Inv st2) as HInv2 by (by apply call_Inv).
  assert (by_due_time (queue st2)) as Hsorted2.
  { apply call_by_due_time; [exact HInv1|]. by rewrite Hcancel. }
  destruct (call_adds_later (action ev) (argument ev) st1 HInv1)
    as (added & Hperm & Hadded).
  fold st2 in Hperm. rewrite Hcancel in Hperm.
  assert (filter (due now) added = []) as Hnone.
  { apply filter_none. eapply Forall_impl; [exact Hadded|].
    unfold due. cbn. intros x Hx. lia. }
  assert (filter (fun x : Event Action Arg => ¬ due now x) added = added) as Hkept.
  { apply filter_all. eapply Forall_impl; [exact Hadded|].
    unfold due. cbn. intros x Hx. lia. }
  assert (filter (due now) (queue st2) ≡ₚ filter (due now) q) as Hdue2.
  { rewrite Hperm, filter_app, Hnone. reflexivity. }
  rewrite filter_cons_True in Hfuel by exact Hdue. cbn [length] in Hfuel.
  destruct (IH st2 HInv2 Hsorted2) as (tr & st' & Hrun & HInv' & Hruns & Horder
                                       & Hremoved & Hleft & added' & Hperm' & Hadded').
  { rewrite Hdue2. lia. }
  rewrite Hrun.
  exists (mkInvocation ev (ev :: q) (queue st1) :: tr), st'.
  split; [reflexivity|]. split; [exact HInv'|]. split.
  { cbn [map run_event]. rewrite filter_cons_True by exact Hdue.
    rewrite Hruns, Hdue2. reflexivity. }
  split.
  { cbn [map run_event]. constructor; [exact Horder|].
    rewrite Forall_map, Forall_forall. intros x Hx.
    assert (x ∈ filter (due now) (queue st2)) as Hx'
      by (rewrite <- Hruns; exact Hx).
    apply list_elem_of_filter in Hx' as [_ Hx'].
    rewrite Hperm in Hx'. apply elem_of_app in Hx' as [Hx'|Hx'].
    - rewrite Forall_forall in Hadded. specialize (Hadded x Hx'). cbn in Hadded. lia.
    - rewrite Forall_forall in Hev. exact (Hev x Hx'). }
  split.
  { constructor; [|exact Hremoved]. cbn. by rewrite Hcancel. }
  split; [exact Hleft|].
  exists (added' ++ added). split.
  - rewrite Hperm', Hperm, filter_app, Hkept.
    rewrite filter_cons_False by (intros Hn; apply Hn; exact Hdue).
    by rewrite app_assoc.
  - apply Forall_app. split; assumption.
Qed.

End FastSchedulerDrain.

(** The tick, as a timer action: it leaves the queue as it is, or re-arms
    itself for one second after a fresh reading of the clock. *)
Lemma call_method_cases a arg sm :
  (sched (call_method a arg sm) = sched sm
   ∧ time_calls (call_method a arg sm) = time_calls sm
   ∧ time_time (call_method a arg sm) = time_time sm)
  ∨ (sched (call_method a arg sm) =
       heappush (mkEvent (time_time sm (time_calls sm) + 1 * ticks_per_second) 1
                   originate_sessions_method []) (sched sm)
     ∧ time_calls (call_method a arg sm) = S (time_calls sm)
     ∧ time_time (call_method a arg sm) = time_time sm).
Proof.
  destruct a. unfold call_method, exec.
  destruct (decide (total_originated_sessions sm >= max_sessions sm)) as [Hmax|Hmax].
  - left. rewrite (originate_sessions_done sm Hmax). cbn. repeat split.
  - right. destruct (originate_sessions_batch sm Hmax) as (k & _ & ->). cbn.
    repeat split.
Qed.

Lemma call_method_drain_inv sm0 a arg sm :
  drain_inv sm0 sm → drain_inv sm0 (call_method a arg sm).
Proof.
  intros [Hc Hn]. unfold drain_inv.
  destruct (call_method_cases a arg sm) as [(_ & -> & ->)|(_ & -> & ->)];
    split; [exact Hc|lia|exact Hc|lia].
Qed.

Lemma call_method_by_due_time a arg sm :
  by_due_time (sched sm) → by_due_time (sched (call_method a arg sm)).
Proof.
  intros Hs.
  destruct (call_method_cases a arg sm) as [(-> & _)|(-> & _)]; [exact Hs|].
  by apply heappush_by_due_time.
Qed.

Lemma call_method_adds_later sm0 a arg sm :
  clock_monotone sm0 → drain_inv sm0 sm →
  ∃ added, sched (call_method a arg sm) ≡ₚ added ++ sched sm
           ∧ Forall (fun ev => time_time sm0 (time_calls sm0) < time ev) added.
Proof.
  intros Hmono [Hc Hn].
  destruct (call_method_cases a arg sm) as [(-> & _)|(-> & _)].
  - exists []. split; [reflexivity|constructor].
  - eexists [_]. split; [apply heappush_Permutation|].
    constructor; [|constructor]. cbn [time]. rewrite Hc.
    pose proof (Hmono (time_calls sm0) (time_calls sm) ltac:(lia) Hn).
    unfold ticks_per_second. lia.
Qed.

Section FastSchedulerReplay.
Context {Action Arg St : Type}.
Context `{EqDecision Action, EqDecision Arg}.
Variable queue : St -> list (Event Action Arg).
Variable set_queue : list (Event Action Arg) -> St -> St.
Variable call : Action -> list Arg -> St -> St.

(** The state at the end of a drain is the state that its invocations
    leave: each entry cancelled, then its action called, in order. *)
Lemma fast_run_loop_replay now : ∀ fuel st tr st',
  fast_run_loop queue set_queue call fuel now st = Some (tr, st') →
  st' = fold_left
          (fun st i => call (action (run_event i)) (argument (run_event i))
                         (cancel queue set_queue (run_event i) st))
          tr st.
Proof.
  induction fuel as [|fuel IH]; intros st tr st' Hrun; [discriminate|].
  cbn [fast_run_loop] in Hrun.
  destruct (queue st) as [|ev q]; [by injection Hrun as <- <-|].
  destruct (now <? time ev); [by injection Hrun as <- <-|].
  destruct (now >=? time ev).
  - destruct (fast_run_loop queue set_queue call fuel now
                (call (action ev) (argument ev) (cancel queue set_queue ev st)))
      as [[tr0 st0]|] eqn:Hrec; [|discriminate].
    injection Hrun as <- <-. cbn [fold_left run_event].
    by apply IH.
  - by apply IH.
Qed.

End FastSchedulerReplay.

Lemma run_invocations_eq tr : ∀ st,
  fold_left
    (fun st i => call_method (action (run_event i)) (argument (run_event i))
                   (cancel sched set_sched (run_event i) st))
    tr st
  = run_invocations tr st.
Proof.
  unfold run_invocations.
  induction tr as [|i tr IH]; intros st; [reflexivity|].
  cbn [fold_left]. rewrite IH. by destruct (action (run_event i)).
Qed.

Lemma count_ticks_app l1 l2 :
  count_ticks (l1 ++ l2) = (count_ticks l1 + count_ticks l2)%nat.
Proof. unfold count_ticks. by rewrite List.filter_app, List.length_app. Qed.

(** Every tick that is run leaves its record in the log, and nothing else
    of the drain does. *)
Lemma run_invocations_count_ticks tr : ∀ st,
  count_ticks (logger (run_invocations tr st))
  = (count_ticks (logger st) + length tr)%nat.
Proof.
  unfold run_invocations.
  induction tr as [|i tr IH]; intros st; [cbn; lia|].
  cbn [fold_left length]. rewrite IH.
  set (st1 := cancel sched set_sched (run_event i) st).
  assert (logger st1 = logger st) as Hl by reflexivity.
  assert (count_ticks (logger (exec originate_sessions st1))
          = S (count_ticks (logger st1))) as ->; [|rewrite Hl; lia].
  unfold exec.
  destruct (decide (total_originated_sessions st1 >= max_sessions st1)) as [Hmax|Hmax].
  - rewrite (originate_sessions_done st1 Hmax). cbn [snd logger set_logger].
    rewrite count_ticks_app. cbn. lia.
  - destruct (originate_sessions_batch st1 Hmax) as (k & _ & ->).
    cbn [snd logger set_sched set_time_calls set_con set_logger].
    rewrite count_ticks_app. cbn. lia.
Qed.

(** C5 (as the code has it).  [now] is the one reading of the clock that
    [fast_run] makes, on entry.  For every state of the timer queue (a heap
    in order) and every clock, a call of [fast_run] that ends has executed
    the entries of its trace and nothing else: the state it leaves is the
    state after that one reading with, for each entry of the trace in
    order, the entry taken out of the queue and then [originate_sessions]
    run, so that each leaves its record in the log.  Every entry executed
    was due at or before [now] and was out of the queue when its action was
    called; every entry left in the queue is due after [now]: no entry due
    after the sample is executed in the pass, whether it was in the queue on
    entry or was scheduled by an action during the drain.  When the clock
    does not step back after the sample, the call ends, with the same result
    for every fuel above the length of the queue; the entries executed are
    exactly the entries that were in the queue on entry and due at or before
    [now], in the order of their due times; the entries that were not due
    are all left in the queue, with those scheduled during the drain. *)
Theorem fast_run_drains_due_entries (sm : SessionManager) :
  by_due_time (sched sm) →
  let now := time_time sm (time_calls sm) in
  (∀ fuel tr sm',
     sched_fast_run_trace fuel sm = Some (tr, sm') →
     sched_fast_run fuel sm = Some sm'
     ∧ sm' = run_invocations tr (set_time_calls (S (time_calls sm)) sm)
     ∧ count_ticks (logger sm') = (count_ticks (logger sm) + length tr)%nat
     ∧ Forall (fun i => due now (run_event i)) tr
     ∧ Forall (fun i => queue_before i = run_event i :: queue_at_call i) tr
     ∧ Forall (fun ev => now < time ev) (sched sm'))
  ∧ (clock_monotone sm →
     ∃ tr sm',
       (∀ fuel, (length (sched sm) < fuel)%nat →
          sched_fast_run_trace fuel sm = Some (tr, sm')
          ∧ sched_fast_run fuel sm = Some sm')
       ∧ map run_event tr ≡ₚ filter (due now) (sched sm)
       ∧ StronglySorted Z.le (map time (map run_event tr))
       ∧ ∃ added, sched sm' ≡ₚ added ++ filter (fun ev => ¬ due now ev) (sched sm)
                  ∧ Forall (fun ev => now < time ev) added).
Proof.
  intros Hsorted. cbn zeta.
  set (now := time_time sm (time_calls sm)).
  set (sm1 := set_time_calls (S (time_calls sm)) sm).
  split.
  { intros fuel tr sm' Hrun.
    assert (sm' = run_invocations tr sm1) as Hreplay.
    { rewrite <- run_invocations_eq.
      apply (fast_run_loop_replay sched set_sched call_method now fuel sm1 tr sm').
      exact Hrun. }
    split.
    { unfold sched_fast_run, fast_run. fold (sched_fast_run_trace fuel sm).
      rewrite Hrun. reflexivity. }
    split; [exact Hreplay|]. split.
    { rewrite Hreplay. apply (run_invocations_count_ticks tr sm1). }
    apply (fast_run_loop_sound sched set_sched call_method now
             (fun q st => eq_refl)
             (fun a arg st => call_method_by_due_time a arg st)
             fuel sm1 tr sm'); [exact Hsorted|exact Hrun]. }
  intros Hmono.
  destruct (fast_run_loop_drains sched set_sched call_method now (drain_inv sm)
              (fun q st => eq_refl)
              (fun q st H => H)
              (call_method_drain_inv sm)
              (fun a arg st _ => call_method_by_due_time a arg st)
              (fun a arg st => call_method_adds_later sm a arg st Hmono)
              (S (length (filter (due now) (sched sm)))) sm1)
    as (tr & sm' & Hrun & _ & Hruns & Horder & _ & _ & Hadded).
  { split; [reflexivity|]. cbn. lia. }
  { exact Hsorted. }
  { cbn [sched sm1 set_time_calls]. lia. }
  exists tr, sm'. split; [|by repeat split].
  intros fuel Hfuel.
  assert (sched_fast_run_trace fuel sm = Some (tr, sm')) as Htrace.
  { unfold sched_fast_run_trace, fast_run_trace, sm_timefunc.
    apply (fast_run_loop_fuel sched set_sched call_method now _ fuel _ _ Hrun).
    pose proof (length_filter (due now) (sched sm)). lia. }
  split; [exact Htrace|].
  unfold sched_fast_run, fast_run. fold (sched_fast_run_trace fuel sm).
  rewrite Htrace. reflexivity.
Qed.

(** The drain of [drain_example], with the sample at 2.4 s: two ticks are
    executed, and each has left its record in the log. *)
Lemma fast_run_drains_due_entries_example :
  clock_monotone drain_example
  ∧ by_due_time (sched drain_example)
  ∧ ∃ tr sm',
      sched_fast_run_trace 4 drain_example = Some (tr, sm')
      ∧ sm' = run_invocations tr (set_time_calls 5 drain_example)
      ∧ length tr = 2%nat
      ∧ count_ticks (logger sm') = (count_ticks (logger drain_example) + 2)%nat
      ∧ map run_event tr ≡ₚ filter (due 2400000) (sched drain_example)
      ∧ StronglySorted Z.le (map time (map run_event tr))
      ∧ Forall (fun i => queue_before i = run_event i :: queue_at_call i) tr
      ∧ Forall (fun ev => 2400000 < time ev) (sched sm').
Proof.
  assert (clock_monotone drain_example) as Hmono.
  { intros i j _ Hij. cbn. unfold clock_600ms. lia. }
  assert (by_due_time (sched drain_example)) as Hsorted.
  { unfold by_due_time. cbn. repeat constructor; cbn; lia. }
  split; [exact Hmono|]. split; [exact Hsorted|].
  destruct (fast_run_drains_due_entries drain_example Hsorted) as [Hsound Hdrain].
  destruct (Hdrain Hmono) as (tr & sm' & Hrun & Hruns & Horder & _).
  destruct (Hrun 4%nat ltac:(cbn; lia)) as [Htrace _].
  destruct (Hsound 4%nat tr sm' Htrace) as (_ & Hreplay & Hticks & _ & Hremoved & Hleft).
  assert (length tr = 2%nat) as Hlen.
  { rewrite <- (length_map run_event tr), Hruns. reflexivity. }
  exists tr, sm'. split; [exact Htrace|]. split; [exact Hreplay|].
  split; [exact Hlen|]. split; [rewrite Hticks, Hlen; reflexivity|].
  split; [exact Hruns|]. split; [exact Horder|]. split; [exact Hremoved|exact Hleft].
Defined.

(** C5 (as stated) fails when the clock steps back.  The queue holds the
    tick due at 100 s and the sample is 200 s.  The tick is executed; to
    re-arm itself it reads the clock again, which has stepped back to 50 s,
    and enters the next tick due at 51 s.  That entry was not in the queue
    on entry; it is due before the sample, so it is executed in the same
    pass, after the entry due at 100 s: two entries are executed where one
    was due on entry, and not in the order of their due times. *)
Lemma fast_run_out_of_order_when_clock_steps_back :
  by_due_time (sched stepping_back_example)
  ∧ ∃ tr sm',
      sched_fast_run_trace 3 stepping_back_example = Some (tr, sm')
      ∧ map time (map run_event tr) = [100000000; 51000000]
      ∧ filter (due 200000000) (sched stepping_back_example)
          = [mkEvent 100000000 1 originate_sessions_method []]
      ∧ ¬ StronglySorted Z.le (map time (map run_event tr))
      ∧ ¬ map run_event tr ≡ₚ filter (due 200000000) (sched stepping_back_example).
Proof.
  split.
  { unfold by_due_time. cbn. repeat constructor. }
  eexists _, _. split; [vm_compute; reflexivity|].
  split; [reflexivity|]. split; [reflexivity|]. split.
  - cbn. intros Hs. apply StronglySorted_cons in Hs as [Hs _].
    apply Forall_cons in Hs as [Hs _]. lia.
  - intros Hp. apply Permutation_length in Hp. cbn in Hp. discriminate.
Qed.

(** The drain of [drain_example], run: the entries due at 1 s and 2 s are
    run in that order, each re-arms the tick for one second after its own
    reading of the clock (3.0 s and 3.6 s), and the three entries left are
    due after the sample. *)
Example fast_run_drain_example_run :
  ∃ tr sm',
    sched_fast_run_trace 4 drain_example = Some (tr, sm')
    ∧ map time (map run_event tr) = [1000000; 2000000]
    ∧ map time (sched sm') = [4000000; 4600000; 9000000]
    ∧ time_calls sm' = 7%nat.
Proof.
  eexists _, _. split; [vm_compute; reflexivity|]. repeat split.
Qed.

(** * Further properties of the code *)

(** ** Event handlers *)

Lemma last_hangup_sets_terminate e sm :
  getHeader e "Event-Name" = Some "CHANNEL_HANGUP" →
  is_Some (sessions sm !! getHeader e "Channel-Call-UUID") →
  total_originated_sessions sm >= max_sessions sm →
  size (sessions sm) = 1%nat →
  terminate (exec (process_event e) sm) = true
  ∧ sessions (exec (process_event e) sm) = ∅.
Proof.
  intros Hn [s Hin] Hmax Hsize. unfold exec.
  rewrite (process_event_hangup e sm Hn), (handle_hangup_known e sm s Hin).
  cbn [snd]. cbn zeta.
  assert (size (sessions (hangup_removed e s sm)) = 0%nat) as Hdel.
  { unfold hangup_removed. cbn. rewrite map_size_delete_Some by (rewrite Hin; eauto).
    lia. }
  rewrite bool_decide_eq_true_2 by exact Hmax.
  rewrite (bool_decide_eq_true_2 _ Hdel). split; [reflexivity|].
  apply map_size_empty_inv. exact Hdel.
Qed.

(** X1.  With the terminate flag unset, the dispatch of an event sets it
    exactly when the event is a hangup for an id in the session table, that
    session is the only one in the table, and [total_originated_sessions >=
    max_sessions]. *)
Theorem terminate_set_exactly_by_last_hangup (e : ESLevent) (sm : SessionManager) :
  terminate sm = false →
  terminate (exec (process_event e) sm) = true
  ↔ getHeader e "Event-Name" = Some "CHANNEL_HANGUP"
    ∧ is_Some (sessions sm !! getHeader e "Channel-Call-UUID")
    ∧ total_originated_sessions sm >= max_sessions sm
    ∧ size (sessions sm) = 1%nat.
Proof.
  intros Hf. split.
  - intros Ht.
    destruct (terminate_raised_by_hangup e sm Hf Ht) as (Hn & [s Hin] & Hmax & Hsize).
    repeat split; [exact Hn|eauto|exact Hmax|].
    revert Hsize. unfold exec.
    rewrite (process_event_hangup e sm Hn), (handle_hangup_known e sm s Hin).
    cbn [snd]. cbn zeta.
    assert (size (sessions (hangup_removed e s sm)) = pred (size (sessions sm))) as Hdel.
    { unfold hangup_removed. cbn. apply map_size_delete_Some. rewrite Hin. eauto. }
    assert (size (sessions sm) ≠ 0%nat) as Hne.
    { intros Hz. apply map_size_empty_inv in Hz. rewrite Hz in Hin.
      rewrite lookup_empty in Hin. discriminate. }
    intros Hsize.
    assert (size (sessions (hangup_removed e s sm)) = 0%nat) as Hz.
    { destruct (bool_decide (total_originated_sessions sm >= max_sessions sm)
                && bool_decide (size (sessions (hangup_removed e s sm)) = 0%nat));
        exact Hsize. }
    rewrite Hdel in Hz. lia.
  - intros (Hn & Hin & Hmax & Hsize).
    by apply last_hangup_sets_terminate.
Qed.

(** The hangup of the only session, with the total reached. *)
Lemma terminate_set_exactly_by_last_hangup_example :
  let sm := exec_steps [tick; recv (ev_originate "a")] (example_manager 1 1 1) in
  terminate sm = false
  ∧ terminate (exec (process_event (ev_hangup "a" "NORMAL_CLEARING")) sm) = true.
Proof.
  cbn zeta. split; [reflexivity|].
  apply (terminate_set_exactly_by_last_hangup (ev_hangup "a" "NORMAL_CLEARING")
           (exec_steps [tick; recv (ev_originate "a")] (example_manager 1 1 1)));
    [reflexivity|].
  split; [reflexivity|]. split; [vm_compute; eexists; reflexivity|].
  split; [vm_compute; discriminate|vm_compute; reflexivity].
Defined.

(** X2.  Two kinds of event are dropped without a trace, not even a log
    record: an origination-confirmed event whose direction is not outbound,
    and an answered event for an id that is not in the session table. *)
Theorem ignored_events_leave_the_state :
  (∀ e sm,
     getHeader e "Event-Name" = Some "CHANNEL_ORIGINATE" →
     getHeader e "Call-Direction" ≠ Some "outbound" →
     process_event e sm = (Return tt, sm))
  ∧ (∀ e sm,
       getHeader e "Event-Name" = Some "CHANNEL_ANSWER" →
       sessions sm !! getHeader e "Channel-Call-UUID" = None →
       process_event e sm = (Return tt, sm)).
Proof.
  split.
  - intros e sm Hn Hd. rewrite (process_event_originate e sm Hn).
    by apply handle_originate_not_outbound.
  - intros e sm Hn Hin. rewrite (process_event_answer e sm Hn).
    by apply handle_answer_unknown.
Qed.

(** An inbound leg, an origination event with no direction header, and an
    answer for a session that was never originated. *)
Lemma ignored_events_leave_the_state_example :
  let sm := exec_steps [tick; recv (ev_originate "a")] (example_manager 1 1 1) in
  process_event (mk_event [("Event-Name", "CHANNEL_ORIGINATE");
                           ("Channel-Call-UUID", "b");
                           ("Call-Direction", "inbound")]) sm = (Return tt, sm)
  ∧ process_event (mk_event [("Event-Name", "CHANNEL_ORIGINATE");
                             ("Channel-Call-UUID", "b")]) sm = (Return tt, sm)
  ∧ process_event (ev_answer "b") sm = (Return tt, sm).
Proof.
  cbn zeta. destruct ignored_events_leave_the_state as [Ho Ha].
  split; [|split].
  - apply Ho; [reflexivity|vm_compute; discriminate].
  - apply Ho; [reflexivity|vm_compute; discriminate].
  - apply Ha; vm_compute; reflexivity.
Defined.

(** X3.  The hangup of a session that is in the table removes that session
    and no other, adds one to the counter of its hangup cause (a cause not
    seen before starts at 1; a missing cause header counts under [None]),
    adds one to [total_failed_sessions] exactly when the session was never
    answered, and leaves the other counters, the timer queue and the
    connection as they were. *)
Theorem hangup_of_live_session (e : ESLevent) (sm : SessionManager) (s : Session) :
  getHeader e "Event-Name" = Some "CHANNEL_HANGUP" →
  sessions sm !! getHeader e "Channel-Call-UUID" = Some s →
  let sm' := exec (process_event e) sm in
  let cause := getHeader e "Hangup-Cause" in
  sessions sm' = delete (getHeader e "Channel-Call-UUID") (sessions sm)
  ∧ hangup_causes sm' !! cause = Some (default 0 (hangup_causes sm !! cause) + 1)
  ∧ (∀ c, c ≠ cause → hangup_causes sm' !! c = hangup_causes sm !! c)
  ∧ total_failed_sessions sm' =
      total_failed_sessions sm + (if answered s then 0 else 1)
  ∧ total_originated_sessions sm' = total_originated_sessions sm
  ∧ total_answered_sessions sm' = total_answered_sessions sm
  ∧ sched sm' = sched sm ∧ con sm' = con sm.
Proof.
  intros Hn Hin. cbn zeta. unfold exec.
  rewrite (process_event_hangup e sm Hn), (handle_hangup_known e sm s Hin).
  cbn [snd]. cbn zeta.
  case_match; unfold hangup_removed; cbn;
    (split; [reflexivity|]); (split; [apply lookup_insert_eq|]);
    (split; [intros c Hc; by apply lookup_insert_ne|]);
    (split; [destruct (answered s); lia|]); repeat split.
Qed.

(** The hangup of the unanswered session "b", with session "a" answered. *)
Lemma hangup_of_live_session_example :
  let sm := exec_steps [tick; recv (ev_originate "a"); recv (ev_originate "b");
                        recv (ev_answer "a")] (example_manager 2 2 4) in
  let sm' := exec (process_event (ev_hangup "b" "NO_ANSWER")) sm in
  sessions sm' = delete (Some "b") (sessions sm)
  ∧ hangup_causes sm' !! Some "NO_ANSWER" = Some 1
  ∧ total_failed_sessions sm' = 1.
Proof.
  cbn zeta.
  destruct (hangup_of_live_session (ev_hangup "b" "NO_ANSWER")
              (exec_steps [tick; recv (ev_originate "a"); recv (ev_originate "b");
                           recv (ev_answer "a")] (example_manager 2 2 4))
              (new_Session (Some "b")))
    as (Hs & Hc & _ & Hf & _); [reflexivity|reflexivity|].
  split; [exact Hs|]. split; [exact Hc|exact Hf].
Defined.

(** ** What no step undoes *)

Lemma later_state_refl sm : later_state sm sm.
Proof. unfold later_state. repeat split; try done; try lia. Qed.

Lemma later_state_trans sm1 sm2 sm3 :
  later_state sm1 sm2 → later_state sm2 sm3 → later_state sm1 sm3.
Proof.
  unfold later_state.
  intros (A1 & A2 & A3 & A4 & A5 & A6 & A7 & A8 & A9 & A10 & A11 & A12 & A13 & A14)
         (B1 & B2 & B3 & B4 & B5 & B6 & B7 & B8 & B9 & B10 & B11 & B12 & B13 & B14).
  repeat split; try congruence; try lia; try (by etrans); try tauto.
  intros c. specialize (A11 c). specialize (B11 c). lia.
Qed.

Ltac later_state_explicit :=
  unfold later_state; cbn;
  repeat split; try reflexivity; try lia; try tauto;
  try (apply prefix_app_r; reflexivity).

Lemma exec_step_later_state s sm : later_state sm (exec_step s sm).
Proof.
  destruct s as [|e]; cbn [exec_step]; unfold exec.
  - destruct (decide (total_originated_sessions sm >= max_sessions sm)) as [Hmax|Hmax].
    + rewrite (originate_sessions_done sm Hmax). later_state_explicit.
    + destruct (originate_sessions_batch sm Hmax) as (k & _ & ->).
      later_state_explicit.
  - destruct (process_event_cases e sm) as
      [[Hn ->]|[[Hn ->]|[[Hn ->]|[[Hn ->]|[Hn ->]]]]].
    + destruct (handle_originate_cases e sm) as
        [[Hd ->]|[(Hd & Hin & ->)|(Hd & Hin & ->)]]; later_state_explicit.
    + destruct (handle_answer_cases e sm) as [[Hin ->]|(s & Hin & ->)];
        later_state_explicit.
    + destruct (handle_hangup_cases e sm) as [[Hin ->]|(s & Hin & ->)];
        [later_state_explicit|].
      cbn [snd]. cbn zeta.
      assert (later_state sm (hangup_removed e s sm)) as Hrem.
      { unfold hangup_removed. later_state_explicit.
        - destruct (answered s); lia.
        - intros c. rewrite lookup_insert. case_decide; [subst c|lia].
          cbn. lia. }
      case_match; [|exact Hrem].
      eapply later_state_trans; [exact Hrem|]. later_state_explicit.
    + later_state_explicit.
    + later_state_explicit.
Qed.

(** X4.  Through every sequence of ticks and dispatched events the
    configuration (rate, limit, max_sessions, duration, origination string)
    stays as it was, the three run counters and every hangup-cause counter
    never go down, the terminate flag is never reset, and the calls on the
    connection and the log records are only added to, never rewritten. *)
Theorem steps_only_move_forward (steps : list step) (sm : SessionManager) :
  later_state sm (exec_steps steps sm).
Proof.
  revert sm. induction steps as [|s steps IH]; intros sm.
  - apply later_state_refl.
  - rewrite exec_steps_cons.
    eapply later_state_trans; [apply exec_step_later_state|apply IH].
Qed.

(** ** One forced hangup for each session *)

Lemma count_sched_hangup_app l1 l2 :
  count_sched_hangup (l1 ++ l2) = count_sched_hangup l1 + count_sched_hangup l2.
Proof.
  unfold count_sched_hangup. rewrite List.filter_app, List.length_app. lia.
Qed.

Lemma count_sched_hangup_originate k s :
  count_sched_hangup (replicate k (api (bgapi_originate s))) = 0.
Proof.
  unfold count_sched_hangup. induction k as [|k IH]; [reflexivity|exact IH].
Qed.

Lemma exec_step_sched_hangup s sm :
  count_sched_hangup (con (exec_step s sm))
    - total_originated_sessions (exec_step s sm)
  = count_sched_hangup (con sm) - total_originated_sessions sm.
Proof.
  destruct s as [|e]; cbn [exec_step]; unfold exec.
  - destruct (decide (total_originated_sessions sm >= max_sessions sm)) as [Hmax|Hmax].
    + rewrite (originate_sessions_done sm Hmax). reflexivity.
    + destruct (originate_sessions_batch sm Hmax) as (k & _ & ->). cbn.
      rewrite count_sched_hangup_app, count_sched_hangup_originate. lia.
  - dispatch_cases e sm; cbn [snd]; cbn zeta;
      try (case_match; unfold hangup_removed); cbn; try lia.
    rewrite count_sched_hangup_app. unfold count_sched_hangup at 2. cbn. lia.
Qed.

(** X5.  Through every sequence of ticks and dispatched events, the number
    of forced-hangup commands ([sched_hangup]) issued on the connection goes
    up exactly as [total_originated_sessions] does: one command for each
    session that is created, and none otherwise. *)
Theorem one_sched_hangup_per_session (steps : list step) (sm : SessionManager) :
  count_sched_hangup (con (exec_steps steps sm)) - count_sched_hangup (con sm)
  = total_originated_sessions (exec_steps steps sm) - total_originated_sessions sm.
Proof.
  revert sm. induction steps as [|s steps IH]; intros sm.
  - cbn. lia.
  - rewrite exec_steps_cons.
    pose proof (IH (exec_step s sm)). pose proof (exec_step_sched_hangup s sm). lia.
Qed.

(** ** The hangup-cause counters *)

Lemma hangup_sum_insert (m : gmap (option string) Z) k v :
  map_fold (fun _ n acc => n + acc) 0 (<[k:=v]> m)
  = v + map_fold (fun _ n acc => n + acc) 0 (delete k m).
Proof.
  rewrite <- (insert_delete_eq m k v).
  rewrite map_fold_insert_L; [reflexivity| |apply lookup_delete_eq].
  intros. lia.
Qed.

Lemma hangup_sum_lookup (m : gmap (option string) Z) k :
  map_fold (fun _ n acc => n + acc) 0 m
  = default 0 (m !! k) + map_fold (fun _ n acc => n + acc) 0 (delete k m).
Proof.
  destruct (m !! k) as [v|] eqn:Hk; cbn.
  - apply (map_fold_delete_L (fun _ n acc => n + acc)); [|exact Hk].
    intros. lia.
  - by rewrite delete_id.
Qed.

Lemma exec_step_hangup_total s sm :
  hangup_total (exec_step s sm) - hangup_total sm = (if removes s sm then 1 else 0)
  ∧ 0 <= total_failed_sessions (exec_step s sm) - total_failed_sessions sm
       <= (if removes s sm then 1 else 0).
Proof.
  unfold hangup_total.
  destruct s as [|e]; cbn [exec_step].
  - destruct (tick_frame sm) as (_ & _ & _ & _ & _ & _ & Hh & _ & _ & Hf & _).
    rewrite Hh, Hf. cbn. lia.
  - unfold exec.
    destruct (process_event_cases e sm) as
      [[Hn ->]|[[Hn ->]|[[Hn ->]|[[Hn ->]|[Hn ->]]]]].
    + rewrite removes_not_hangup by (rewrite Hn; discriminate).
      destruct (handle_originate_cases e sm) as
        [[Hd ->]|[(Hd & Hin & ->)|(Hd & Hin & ->)]]; cbn; lia.
    + rewrite removes_not_hangup by (rewrite Hn; discriminate).
      destruct (handle_answer_cases e sm) as [[Hin ->]|(s & Hin & ->)]; cbn; lia.
    + destruct (handle_hangup_cases e sm) as [[Hin ->]|(s & Hin & ->)].
      * assert (removes (recv e) sm = false) as ->.
        { cbn [removes]. apply bool_decide_eq_false_2. rewrite Hin.
          intros [_ []]. discriminate. }
        cbn. lia.
      * assert (removes (recv e) sm = true) as ->.
        { cbn [removes]. apply bool_decide_eq_true_2. rewrite Hin. eauto. }
        cbn [snd]. cbn zeta.
        assert (hangup_causes (hangup_removed e s sm) =
                  <[getHeader e "Hangup-Cause" :=
                      default 0 (hangup_causes sm !! getHeader e "Hangup-Cause") + 1]>
                    (hangup_causes sm)) as Hc by reflexivity.
        assert (total_failed_sessions (hangup_removed e s sm) =
                  if answered s then total_failed_sessions sm
                  else total_failed_sessions sm + 1) as Hf by reflexivity.
        assert (∀ b : bool,
                  hangup_causes (if b then set_terminate true (hangup_removed e s sm)
                                 else hangup_removed e s sm)
                  = hangup_causes (hangup_removed e s sm)
                  ∧ total_failed_sessions
                      (if b then set_terminate true (hangup_removed e s sm)
                       else hangup_removed e s sm)
                    = total_failed_sessions (hangup_removed e s sm)) as Hb.
        { intros []; split; reflexivity. }
        destruct (Hb (bool_decide (total_originated_sessions sm >= max_sessions sm)
                      && bool_decide (size (sessions (hangup_removed e s sm)) = 0%nat)))
          as [-> ->].
        rewrite Hc, Hf, hangup_sum_insert.
        rewrite (hangup_sum_lookup (hangup_causes sm) (getHeader e "Hangup-Cause")).
        destruct (answered s); lia.
    + rewrite removes_not_hangup by (rewrite Hn; discriminate). cbn. lia.
    + rewrite removes_not_hangup; [cbn; lia|].
      intros Hh. rewrite Hh in Hn. rewrite ev_handlers_lookup in Hn.
      repeat case_decide; done.
Qed.

Lemma exec_steps_hangup_total steps : ∀ sm,
  hangup_total (exec_steps steps sm) - hangup_total sm = removed steps sm
  ∧ 0 <= total_failed_sessions (exec_steps steps sm) - total_failed_sessions sm
       <= removed steps sm.
Proof.
  induction steps as [|s steps IH]; intros sm.
  - cbn. lia.
  - rewrite exec_steps_cons. cbn [removed].
    pose proof (IH (exec_step s sm)). pose proof (exec_step_hangup_total s sm). lia.
Qed.

(** X6.  Through every sequence of ticks and dispatched events the
    hangup-cause counters account for the sessions that were hung up: their
    sum goes up by the number of sessions that left the table, which is the
    rise of [total_originated_sessions] less the rise of the table size.
    [total_failed_sessions] goes up by no more than that.  From the state
    that [__init__] leaves, the causes in the final report add up to
    [total_originated_sessions] less the sessions still live. *)
Theorem hangup_causes_account_for_hangups (steps : list step) (sm : SessionManager) :
  let sm' := exec_steps steps sm in
  hangup_total sm' - hangup_total sm
    = (total_originated_sessions sm' - live sm')
      - (total_originated_sessions sm - live sm)
  ∧ 0 <= total_failed_sessions sm' - total_failed_sessions sm
       <= hangup_total sm' - hangup_total sm
  ∧ (sessions sm = ∅ → hangup_causes sm = ∅ → total_originated_sessions sm = 0 →
     hangup_total sm' = total_originated_sessions sm' - live sm').
Proof.
  cbn zeta.
  pose proof (exec_steps_hangup_total steps sm) as [Hh Hf].
  pose proof (exec_steps_balance steps sm) as Hb.
  split; [lia|]. split; [lia|].
  intros Hs Hc Ht. unfold hangup_total in Hh at 2. unfold live in Hb at 2.
  rewrite Hc, map_fold_empty in Hh. rewrite Hs, map_size_empty in Hb. cbn in Hb. lia.
Qed.

(** The scenario of two sessions, one answered and hung up normally, the
    other never answered: two causes, one failure. *)
Lemma hangup_causes_account_for_hangups_example :
  let sm' := exec_steps [tick; recv (ev_originate "a"); recv (ev_originate "b");
                         recv (ev_answer "a"); recv (ev_hangup "b" "NO_ANSWER");
                         recv (ev_hangup "a" "NORMAL_CLEARING")]
               (example_manager 2 2 4) in
  hangup_total sm' = 2 ∧ total_failed_sessions sm' = 1
  ∧ hangup_total sm' = total_originated_sessions sm' - live sm'.
Proof.
  cbn zeta. split; [vm_compute; reflexivity|]. split; [reflexivity|].
  apply (proj2 (proj2 (hangup_causes_account_for_hangups
           [tick; recv (ev_originate "a"); recv (ev_originate "b");
            recv (ev_answer "a"); recv (ev_hangup "b" "NO_ANSWER");
            recv (ev_hangup "a" "NORMAL_CLEARING")] (example_manager 2 2 4))));
    reflexivity.
Defined.

(** ** The keys of the session table *)

Lemma exec_step_session_keys s sm :
  (∀ k x, sessions sm !! k = Some x → uuid x = k) →
  ∀ k x, sessions (exec_step s sm) !! k = Some x → uuid x = k.
Proof.
  intros Hinv.
  destruct s as [|e]; cbn [exec_step].
  - destruct (tick_frame sm) as (_ & _ & _ & _ & _ & -> & _). exact Hinv.
  - unfold exec.
    destruct (process_event_cases e sm) as
      [[Hn ->]|[[Hn ->]|[[Hn ->]|[[Hn ->]|[Hn ->]]]]].
    + destruct (handle_originate_cases e sm) as
        [[Hd ->]|[(Hd & Hin & ->)|(Hd & Hin & ->)]]; cbn; try exact Hinv.
      intros k x. rewrite lookup_insert. case_decide.
      * intros [= <-]. subst k. reflexivity.
      * apply Hinv.
    + destruct (handle_answer_cases e sm) as [[Hin ->]|(s & Hin & ->)]; cbn;
        try exact Hinv.
      intros k x. rewrite lookup_insert. case_decide.
      * intros [= <-]. subst k. cbn. by apply Hinv.
      * apply Hinv.
    + destruct (handle_hangup_cases e sm) as [[Hin ->]|(s & Hin & ->)];
        [exact Hinv|].
      cbn [snd]. cbn zeta. intros k x Hk.
      assert (sessions (hangup_removed e s sm) !! k = Some x) as Hk'.
      { destruct (bool_decide (total_originated_sessions sm >= max_sessions sm)
                  && bool_decide (size (sessions (hangup_removed e s sm)) = 0%nat));
          exact Hk. }
      unfold hangup_removed in Hk'. cbn in Hk'.
      apply lookup_delete_Some in Hk' as [_ Hk']. by apply Hinv.
    + exact Hinv.
    + exact Hinv.
Qed.

(** X7.  Every Session object sits in the table under its own id: if that
    holds of a state (as of the empty table that [__init__] leaves), it
    holds after every sequence of ticks and dispatched events.  An answered
    event changes the [answered] field only, never the id. *)
Theorem sessions_keyed_by_uuid (steps : list step) (sm : SessionManager) :
  (∀ k x, sessions sm !! k = Some x → uuid x = k) →
  ∀ k x, sessions (exec_steps steps sm) !! k = Some x → uuid x = k.
Proof.
  revert sm. induction steps as [|s steps IH]; intros sm Hinv; [exact Hinv|].
  rewrite exec_steps_cons. apply IH. by apply exec_step_session_keys.
Qed.

(** From the empty table, with a session whose event has no id header: it
    is kept under [None], with [None] as its id. *)
Lemma sessions_keyed_by_uuid_example :
  let sm' := exec_steps [tick; recv (ev_originate "a"); recv (ev_answer "a");
                         recv (mk_event [("Event-Name", "CHANNEL_ORIGINATE");
                                         ("Call-Direction", "outbound")])]
               (example_manager 2 2 4) in
  size (sessions sm') = 2%nat
  ∧ ∀ k x, sessions sm' !! k = Some x → uuid x = k.
Proof.
  cbn zeta. split; [vm_compute; reflexivity|].
  apply (sessions_keyed_by_uuid _ (example_manager 2 2 4)).
  intros k x Hk. cbn in Hk. rewrite lookup_empty in Hk. discriminate.
Defined.

(** ** The time until the next timer *)

(** X8.  [next_event_time_delta] leaves the timer queue and the session
    state as they are.  On an empty queue it returns -1 and does not read
    the clock.  Otherwise it reads the clock once and returns the whole
    seconds that remain until the earliest entry is due, rounded down, and 0
    for an entry that is due or overdue: the result is never negative and
    never later than the due time. *)
Theorem next_event_time_delta_whole_seconds (sm : SessionManager) :
  let d := fst (sched_next_event_time_delta sm) in
  let sm' := snd (sched_next_event_time_delta sm) in
  sched sm' = sched sm
  ∧ same_session_state sm sm'
  ∧ (sched sm = [] → d = -1 ∧ sm' = sm)
  ∧ (∀ ev q, sched sm = ev :: q →
       let remaining := Z.max 0 (time ev - time_time sm (time_calls sm)) in
       0 <= d
       ∧ d * ticks_per_second <= remaining < (d + 1) * ticks_per_second
       ∧ time_calls sm' = S (time_calls sm)).
Proof.
  cbn zeta. unfold sched_next_event_time_delta, next_event_time_delta.
  destruct (sched sm) as [|ev q] eqn:Hq.
  { cbn. split; [exact Hq|]. split; [by repeat split|]. split; [done|].
    intros ? ? [=]. }
  unfold sm_timefunc.
  assert (0 < ticks_per_second) as Hpos by (unfold ticks_per_second; lia).
  destruct (Z.ltb_spec (time_time sm (time_calls sm)) (time ev)) as [Hlt|Hge];
    cbn [fst snd]; (split; [exact Hq|]); (split; [by repeat split|]);
    (split; [intros [=]|]); intros ev' q' [= <- <-].
  - pose proof (Z.quot_rem' (time ev - time_time sm (time_calls sm))
                  ticks_per_second) as Hqr.
    pose proof (Z.rem_bound_pos (time ev - time_time sm (time_calls sm))
                  ticks_per_second ltac:(lia) Hpos) as Hr.
    pose proof (Z.quot_pos (time ev - time_time sm (time_calls sm))
                  ticks_per_second ltac:(lia) Hpos) as Hd.
    split; [exact Hd|]. split; [nia|reflexivity].
  - split; [lia|]. split; [lia|reflexivity].
Qed.

(** ** The timer drain and the run loop *)

Section FastSchedulerInvariant.
Context {Action Arg St : Type}.
Context `{EqDecision Action, EqDecision Arg}.
Variable queue : St -> list (Event Action Arg).
Variable set_queue : list (Event Action Arg) -> St -> St.
Variable call : Action -> list Arg -> St -> St.
Variable P : St -> Prop.

Hypothesis P_set_queue : ∀ q st, P st → P (set_queue q st).
Hypothesis P_call : ∀ a arg st, P st → P (call a arg st).

(** What the actions and the queue updates keep, the drain keeps. *)
Lemma fast_run_loop_invariant now : ∀ fuel st tr st',
  fast_run_loop queue set_queue call fuel now st = Some (tr, st') →
  P st → P st'.
Proof.
  induction fuel as [|fuel IH]; intros st tr st' Hrun HP; [discriminate|].
  cbn [fast_run_loop] in Hrun.
  destruct (queue st) as [|ev q]; [by injection Hrun as <- <-|].
  destruct (now <? time ev); [by injection Hrun as <- <-|].
  destruct (now >=? time ev).
  - destruct (fast_run_loop queue set_queue call fuel now
                (call (action ev) (argument ev) (cancel queue set_queue ev st)))
      as [[tr0 st0]|] eqn:Hrec; [|discriminate].
    injection Hrun as <- <-.
    apply (IH _ _ _ Hrec). apply P_call. by apply P_set_queue.
  - by apply (IH _ _ _ Hrun).
Qed.

End FastSchedulerInvariant.

Lemma sched_fast_run_invariant (P : SessionManager → Prop) fuel sm sm1 :
  (∀ q s, P s → P (set_sched q s)) →
  (∀ s, P s → P (set_time_calls (S (time_calls s)) s)) →
  (∀ s, P s → P (exec originate_sessions s)) →
  sched_fast_run fuel sm = Some sm1 →
  P sm → P sm1.
Proof.
  intros Hq Hn Ht Hrun HP.
  unfold sched_fast_run, fast_run, fast_run_trace, sm_timefunc in Hrun.
  destruct (fast_run_loop sched set_sched call_method fuel
              (time_time sm (time_calls sm)) (set_time_calls (S (time_calls sm)) sm))
    as [[tr st']|] eqn:Hloop; [|discriminate].
  cbn in Hrun. assert (st' = sm1) as -> by congruence.
  apply (fast_run_loop_invariant sched set_sched call_method P Hq
           (fun a arg s H => match a with originate_sessions_method => Ht s H end)
           _ _ _ _ _ Hloop).
  by apply Hn.
Qed.

Lemma tick_commands_appended sm :
  ∃ k, con (exec originate_sessions sm)
       = con sm ++ replicate k (api (bgapi_originate (originate_string sm))).
Proof.
  unfold exec.
  destruct (decide (total_originated_sessions sm >= max_sessions sm)) as [Hmax|Hmax].
  - rewrite (originate_sessions_done sm Hmax). exists 0%nat. cbn.
    by rewrite app_nil_r.
  - destruct (originate_sessions_batch sm Hmax) as (k & _ & ->). by exists k.
Qed.

(** The drain leaves the part of the state that the handlers own. *)
Lemma sched_fast_run_same_session_state fuel sm sm1 :
  sched_fast_run fuel sm = Some sm1 → same_session_state sm sm1.
Proof.
  intros Hrun.
  apply (sched_fast_run_invariant (same_session_state sm) fuel sm sm1);
    try exact Hrun.
  - intros q s Hs. exact Hs.
  - intros s Hs. exact Hs.
  - intros s (H1 & H2 & H3 & H4 & H5 & H6).
    destruct (tick_frame s) as (_ & _ & _ & _ & _ & T1 & T2 & T3 & T4 & T5 & T6 & _).
    repeat split; congruence.
  - by repeat split.
Qed.

(** X9.  A drain that ends has left the session table, the hangup-cause
    counters, the run counters and the terminate flag as they were; the
    configuration is unchanged; and all it has done on the connection is to
    issue origination commands with the configured origination string. *)
Theorem fast_run_leaves_session_state (fuel : nat) (sm sm1 : SessionManager) :
  sched_fast_run fuel sm = Some sm1 →
  same_session_state sm sm1
  ∧ later_state sm sm1
  ∧ ∃ k, con sm1 = con sm ++ replicate k (api (bgapi_originate (originate_string sm))).
Proof.
  intros Hrun. split; [|split].
  - by apply (sched_fast_run_same_session_state fuel).
  - apply (sched_fast_run_invariant (later_state sm) fuel sm sm1);
      try exact Hrun; try apply later_state_refl.
    + intros q s Hs. eapply later_state_trans; [exact Hs|].
      unfold later_state; cbn; repeat split; try done; try lia.
    + intros s Hs. eapply later_state_trans; [exact Hs|].
      unfold later_state; cbn; repeat split; try done; try lia.
    + intros s Hs. eapply later_state_trans; [exact Hs|].
      apply (exec_step_later_state tick).
  - apply (sched_fast_run_invariant
             (fun s => originate_string s = originate_string sm
                       ∧ ∃ k, con s = con sm
                                ++ replicate k (api (bgapi_originate (originate_string sm))))
             fuel sm sm1); try exact Hrun.
    + intros q s Hs. exact Hs.
    + intros s Hs. exact Hs.
    + intros s [Ho [k Hk]].
      destruct (tick_frame s) as (_ & _ & _ & _ & To & _).
      split; [congruence|].
      destruct (tick_commands_appended s) as [k' ->]. rewrite Hk, Ho.
      exists (k + k')%nat. by rewrite <- app_assoc, replicate_add.
    + split; [reflexivity|]. exists 0%nat. by rewrite app_nil_r.
Qed.

(** The drain of [drain_example]: two ticks run, each issues one command. *)
Lemma fast_run_leaves_session_state_example :
  ∃ sm1,
    sched_fast_run 4 drain_example = Some sm1
    ∧ same_session_state drain_example sm1
    ∧ con sm1 = con drain_example ++ replicate 2 (api (bgapi_originate "user/1000")).
Proof.
  eexists. split; [vm_compute; reflexivity|].
  split; [|vm_compute; reflexivity].
  eapply (proj1 (fast_run_leaves_session_state 4 drain_example _ _)).
  Unshelve. vm_compute; reflexivity.
Defined.

(** The state in which an iteration of the run loop receives its event. *)
Lemma run_loop_iteration_frame sm1 d sm2 :
  sched_next_event_time_delta sm1 = (d, sm2) →
  let sm3 := exec (con_recvEventTimed (recv_timeout d)) sm2 in
  same_session_state sm1 sm3
  ∧ sched sm3 = sched sm1
  ∧ max_sessions sm3 = max_sessions sm1.
Proof.
  unfold sched_next_event_time_delta, next_event_time_delta.
  destruct (sched sm1) as [|ev q] eqn:Hq.
  - intros [= <- <-]. cbn. by repeat split.
  - unfold sm_timefunc. case_match; intros [= <- <-]; cbn; by repeat split.
Qed.

Lemma run_loop_returns_when_done fuel : ∀ inputs sm,
  terminate sm = false →
  match run_loop fuel inputs sm with
  | Returned sm' =>
      terminate sm' = true
      ∧ total_originated_sessions sm' >= max_sessions sm'
      ∧ sessions sm' = ∅
  | Waiting sm' => terminate sm' = false
  | Spinning => True
  end.
Proof.
  induction inputs as [|i inputs IH]; intros sm Hf.
  - cbn [run_loop].
    destruct (sched_fast_run fuel sm) as [sm1|] eqn:Hrun; [|exact I].
    destruct (sched_fast_run_same_session_state fuel sm sm1 Hrun)
      as (_ & _ & _ & _ & _ & Ht1).
    destruct (sched_next_event_time_delta sm1) as [d sm2] eqn:Hd.
    destruct (run_loop_iteration_frame sm1 d sm2 Hd)
      as ((_ & _ & _ & _ & _ & Ht3) & _).
    cbn zeta in Ht3. congruence.
  - cbn [run_loop].
    destruct (sched_fast_run fuel sm) as [sm1|] eqn:Hrun; [|exact I].
    destruct (sched_fast_run_same_session_state fuel sm sm1 Hrun)
      as (_ & _ & _ & _ & _ & Ht1).
    destruct (sched_next_event_time_delta sm1) as [d sm2] eqn:Hd.
    destruct (run_loop_iteration_frame sm1 d sm2 Hd)
      as ((_ & _ & _ & _ & _ & Ht3) & _).
    cbn zeta in Ht3.
    set (sm3 := exec (con_recvEventTimed (recv_timeout d)) sm2) in *.
    assert (terminate sm3 = false) as Hf3 by congruence.
    destruct i as [e|]; [|by apply IH].
    destruct (terminate (exec (process_event e) sm3)) eqn:Ht4; [|by apply IH].
    destruct (terminate_raised_by_hangup e sm3 Hf3 Ht4) as (_ & _ & Hmax & Hsize).
    destruct (process_event_frame e sm3) as (_ & _ & Hm & _ & _ & _ & _ & _ & Hle & _).
    split; [exact Ht4|]. split; [lia|]. by apply map_size_empty_inv.
Qed.

(** X10.  [run], entered with the terminate flag unset, returns only in a
    state where the flag is set, [total_originated_sessions >= max_sessions]
    and the session table is empty; as long as it waits for an event the
    flag is unset.  No received event makes it return otherwise, a
    [SERVER_DISCONNECTED] event included. *)
Theorem run_returns_only_when_done (fuel : nat) (inputs : list (option ESLevent))
    (sm : SessionManager) :
  terminate sm = false →
  match run fuel inputs sm with
  | Returned sm' =>
      terminate sm' = true
      ∧ total_originated_sessions sm' >= max_sessions sm'
      ∧ sessions sm' = ∅
  | Waiting sm' => terminate sm' = false
  | Spinning => True
  end.
Proof.
  intros Hf. unfold run. apply run_loop_returns_when_done.
  destruct (tick_frame sm) as (_ & _ & _ & _ & _ & _ & _ & _ & _ & _ & Ht & _).
  congruence.
Qed.

(** A run of one session: originated, answered, hung up; [run] returns at
    the hangup and does not read the input that follows. *)
Lemma run_returns_only_when_done_example :
  ∃ sm',
    run 2 [Some (ev_originate "a"); None; Some (ev_answer "a");
           Some ev_disconnected; Some (ev_hangup "a" "NORMAL_CLEARING");
           Some (ev_originate "b")] (example_manager 1 1 1) = Returned sm'
    ∧ terminate sm' = true
    ∧ total_originated_sessions sm' >= max_sessions sm'
    ∧ sessions sm' = ∅.
Proof.
  pose proof (run_returns_only_when_done 2
    [Some (ev_originate "a"); None; Some (ev_answer "a");
     Some ev_disconnected; Some (ev_hangup "a" "NORMAL_CLEARING");
     Some (ev_originate "b")] (example_manager 1 1 1) eq_refl) as H.
  destruct (run 2 _ (example_manager 1 1 1)) as [sm'| |] eqn:Hrun in H;
    [|exfalso; revert Hrun; vm_compute; discriminate
     |exfalso; revert Hrun; vm_compute; discriminate].
  exists sm'. split; [exact Hrun|exact H].
Defined.

(** ** The timer queue of a run *)

Lemma call_method_one_entry a arg sm :
  sched sm = [] → (length (sched (call_method a arg sm)) <= 1)%nat.
Proof.
  intros Hq.
  destruct (call_method_cases a arg sm) as [(-> & _)|(-> & _)]; rewrite Hq; cbn; lia.
Qed.

Lemma fast_run_loop_one_entry now : ∀ fuel sm tr sm',
  (length (sched sm) <= 1)%nat →
  fast_run_loop sched set_sched call_method fuel now sm = Some (tr, sm') →
  (length (sched sm') <= 1)%nat.
Proof.
  induction fuel as [|fuel IH]; intros sm tr sm' Hlen Hrun; [discriminate|].
  cbn [fast_run_loop] in Hrun.
  destruct (sched sm) as [|ev q] eqn:Hq.
  { injection Hrun as <- <-. rewrite Hq. cbn. lia. }
  destruct q as [|ev2 q]; [|cbn in Hlen; lia].
  destruct (now <? time ev) eqn:Hlt.
  { injection Hrun as <- <-. rewrite Hq. cbn. lia. }
  destruct (now >=? time ev) eqn:Hge; [|lia].
  destruct (fast_run_loop sched set_sched call_method fuel now
              (call_method (action ev) (argument ev) (cancel sched set_sched ev sm)))
    as [[tr0 st0]|] eqn:Hrec; [|discriminate].
  injection Hrun as <- <-.
  assert (sched (cancel sched set_sched ev sm) = []) as Hcancel.
  { unfold cancel. rewrite Hq. cbn. by rewrite decide_True. }
  apply (IH _ _ _
           (call_method_one_entry (action ev) (argument ev) _ Hcancel) Hrec).
Qed.

Lemma run_loop_one_entry fuel : ∀ inputs sm,
  (length (sched sm) <= 1)%nat →
  match run_loop fuel inputs sm with
  | Returned sm' | Waiting sm' => (length (sched sm') <= 1)%nat
  | Spinning => True
  end.
Proof.
  assert (∀ sm sm1 d sm2,
            (length (sched sm) <= 1)%nat →
            sched_fast_run fuel sm = Some sm1 →
            sched_next_event_time_delta sm1 = (d, sm2) →
            (length (sched (exec (con_recvEventTimed (recv_timeout d)) sm2)) <= 1)%nat)
    as Hiter.
  { intros sm sm1 d sm2 Hlen Hrun Hd.
    destruct (run_loop_iteration_frame sm1 d sm2 Hd) as (_ & Hs & _).
    cbn zeta in Hs. rewrite Hs.
    unfold sched_fast_run, fast_run, fast_run_trace, sm_timefunc in Hrun.
    destruct (fast_run_loop sched set_sched call_method fuel
                (time_time sm (time_calls sm)) (set_time_calls (S (time_calls sm)) sm))
      as [[tr st']|] eqn:Hloop; [|discriminate].
    cbn in Hrun. assert (st' = sm1) as -> by congruence.
    exact (fast_run_loop_one_entry _ _ (set_time_calls (S (time_calls sm)) sm)
             _ _ Hlen Hloop). }
  induction inputs as [|i inputs IH]; intros sm Hlen; cbn [run_loop];
    (destruct (sched_fast_run fuel sm) as [sm1|] eqn:Hrun; [|exact I]);
    destruct (sched_next_event_time_delta sm1) as [d sm2] eqn:Hd;
    pose proof (Hiter sm sm1 d sm2 Hlen Hrun Hd) as Hlen3.
  - exact Hlen3.
  - destruct i as [e|]; [|by apply IH].
    assert (length (sched (exec (process_event e)
                             (exec (con_recvEventTimed (recv_timeout d)) sm2))) <= 1)%nat
      as Hlen4.
    { destruct (process_event_frame e
                  (exec (con_recvEventTimed (recv_timeout d)) sm2))
        as (_ & _ & _ & _ & _ & -> & _). exact Hlen3. }
    cbn zeta.
    destruct (terminate (exec (process_event e)
                           (exec (con_recvEventTimed (recv_timeout d)) sm2)));
      [exact Hlen4|by apply IH].
Qed.

(** X11.  In a run that starts with an empty timer queue, as [__init__]
    leaves it, the queue never holds more than one entry: the rate-control
    tick re-arms itself only when it runs, after it was taken out of the
    queue, so ticks do not pile up. *)
Theorem run_keeps_one_timer_entry (fuel : nat) (inputs : list (option ESLevent))
    (sm : SessionManager) :
  sched sm = [] →
  match run fuel inputs sm with
  | Returned sm' | Waiting sm' => (length (sched sm') <= 1)%nat
  | Spinning => True
  end.
Proof.
  intros Hq. unfold run. apply run_loop_one_entry.
  apply (call_method_one_entry originate_sessions_method [] sm Hq).
Qed.

(** A run that is left waiting, with the tick re-armed. *)
Lemma run_keeps_one_timer_entry_example :
  ∃ sm',
    run 2 [Some (ev_originate "a"); None; None] (example_manager 1 1 5) = Waiting sm'
    ∧ length (sched sm') = 1%nat
    ∧ (length (sched sm') <= 1)%nat.
Proof.
  pose proof (run_keeps_one_timer_entry 2 [Some (ev_originate "a"); None; None]
                (example_manager 1 1 5) eq_refl) as H.
  destruct (run 2 _ (example_manager 1 1 5)) as [sm'|sm'|] eqn:Hrun in H;
    [exfalso; revert Hrun; vm_compute; discriminate
    | |exfalso; revert Hrun; vm_compute; discriminate].
  exists sm'. split; [exact Hrun|]. split; [|exact H].
  revert Hrun. vm_compute. intros [= <-]. reflexivity.
Defined.

(** ** Normal completion *)

Lemma sched_fast_run_max_sessions fuel sm sm1 :
  sched_fast_run fuel sm = Some sm1 → max_sessions sm1 = max_sessions sm.
Proof.
  intros Hrun.
  apply (sched_fast_run_invariant (fun s => max_sessions s = max_sessions sm)
           fuel sm sm1); try exact Hrun; try done.
  intros s Hs. destruct (tick_frame s) as (_ & _ & -> & _). exact Hs.
Qed.

Lemma process_event_hangup_total e sm :
  getHeader e "Event-Name" = Some "CHANNEL_HANGUP" →
  total_originated_sessions (exec (process_event e) sm)
  = total_originated_sessions sm.
Proof.
  intros Hn. unfold exec. rewrite (process_event_hangup e sm Hn).
  destruct (handle_hangup_cases e sm) as [[Hin ->]|(s & Hin & ->)]; [reflexivity|].
  cbn [snd]. cbn zeta. case_match; reflexivity.
Qed.

(** X12.  When the table holds one session and [total_originated_sessions
    >= max_sessions], the iteration of the run loop that receives the
    hangup of that session makes [run] return, with an empty table; what
    the transport would deliver next is not read. *)
Theorem run_loop_returns_at_last_hangup (fuel : nat) (e : ESLevent)
    (rest : list (option ESLevent)) (sm sm1 : SessionManager) :
  sched_fast_run fuel sm = Some sm1 →
  getHeader e "Event-Name" = Some "CHANNEL_HANGUP" →
  is_Some (sessions sm !! getHeader e "Channel-Call-UUID") →
  total_originated_sessions sm >= max_sessions sm →
  size (sessions sm) = 1%nat →
  ∃ sm', run_loop fuel (Some e :: rest) sm = Returned sm'
         ∧ terminate sm' = true ∧ sessions sm' = ∅
         ∧ total_originated_sessions sm' = total_originated_sessions sm.
Proof.
  intros Hrun Hn Hin Hmax Hsize. cbn [run_loop]. rewrite Hrun.
  destruct (sched_fast_run_same_session_state fuel sm sm1 Hrun)
    as (Hs1 & _ & Ht1 & _).
  pose proof (sched_fast_run_max_sessions fuel sm sm1 Hrun) as Hm1.
  destruct (sched_next_event_time_delta sm1) as [d sm2] eqn:Hd.
  destruct (run_loop_iteration_frame sm1 d sm2 Hd)
    as ((Hs3 & _ & Ht3 & _) & _ & Hm3).
  cbn zeta in *.
  set (sm3 := exec (con_recvEventTimed (recv_timeout d)) sm2) in *.
  destruct (last_hangup_sets_terminate e sm3 Hn) as [Hterm Hempty].
  { rewrite Hs3, Hs1. exact Hin. }
  { rewrite Ht3, Ht1, Hm3, Hm1. exact Hmax. }
  { rewrite Hs3, Hs1. exact Hsize. }
  rewrite Hterm. eexists. split; [reflexivity|].
  split; [exact Hterm|]. split; [exact Hempty|].
  rewrite (process_event_hangup_total e sm3 Hn). congruence.
Qed.

(** The hangup of the only session of a run whose total is reached; the
    confirmation that follows in the input is not processed. *)
Lemma run_loop_returns_at_last_hangup_example :
  let sm := exec_steps [tick; recv (ev_originate "a")] (example_manager 1 1 1) in
  ∃ sm', run_loop 2 [Some (ev_hangup "a" "NORMAL_CLEARING"); Some (ev_originate "b")] sm
           = Returned sm'
         ∧ terminate sm' = true ∧ sessions sm' = ∅
         ∧ total_originated_sessions sm' = total_originated_sessions sm.
Proof.
  cbn zeta.
  assert (∃ sm1, sched_fast_run 2
            (exec_steps [tick; recv (ev_originate "a")] (example_manager 1 1 1))
          = Some sm1) as [sm1 Hrun] by (eexists; vm_compute; reflexivity).
  apply (run_loop_returns_at_last_hangup 2 (ev_hangup "a" "NORMAL_CLEARING")
           [Some (ev_originate "b")]
           (exec_steps [tick; recv (ev_originate "a")] (example_manager 1 1 1))
           sm1 Hrun).
  - reflexivity.
  - vm_compute. eexists; reflexivity.
  - vm_compute. discriminate.
  - vm_compute. reflexivity.
Defined.

(** ** The tick re-arms itself *)

(** X13.  A tick entered with [total_originated_sessions < max_sessions]
    re-arms itself, whether or not it issues a command: it reads the clock
    once and enters one entry for itself, with priority 1, due one second
    after that reading; the entries that were in the queue stay, and the
    heap stays in order.  With the limit reached it issues no command and
    re-arms all the same. *)
Theorem tick_rearms_below_total (sm : SessionManager) :
  ¬ total_originated_sessions sm >= max_sessions sm →
  let sm' := exec originate_sessions sm in
  sched sm' ≡ₚ
    mkEvent (time_time sm (time_calls sm) + 1 * ticks_per_second) 1
      originate_sessions_method [] :: sched sm
  ∧ (by_due_time (sched sm) → by_due_time (sched sm'))
  ∧ time_calls sm' = S (time_calls sm)
  ∧ logger sm' = logger sm ++ [info_Originating_sessions]
  ∧ (limit sm <= live sm → con sm' = con sm).
Proof.
  intros Hmax. cbn zeta. unfold exec.
  destruct (originate_sessions_batch sm Hmax) as (k & Hk & ->). cbn.
  split; [apply heappush_Permutation|].
  split; [apply heappush_by_due_time|].
  split; [reflexivity|]. split; [reflexivity|].
  intros Hlim. assert (k = 0%nat) as -> by lia. cbn. by rewrite app_nil_r.
Qed.

(** The second tick of a run with limit 1, while the one session is live. *)
Lemma tick_rearms_below_total_example :
  let sm := exec_steps [tick; recv (ev_originate "a")] (example_manager 1 1 5) in
  let sm' := exec originate_sessions sm in
  con sm' = con sm
  ∧ sched sm' ≡ₚ [mkEvent 1600000 1 originate_sessions_method [];
                  mkEvent 1000000 1 originate_sessions_method []].
Proof.
  cbn zeta.
  destruct (tick_rearms_below_total
              (exec_steps [tick; recv (ev_originate "a")] (example_manager 1 1 5)))
    as (Hq & _ & _ & _ & Hc).
  { vm_compute. intros H; apply H; reflexivity. }
  split; [apply Hc; vm_compute; discriminate|exact Hq].
Defined.
